(** * investpy: Monte Carlo retirement simulations

    A shallow embedding of [src/investpy.py] (the numerical core:
    [sims_matrix], [growth], [growth_simulation], [withdrawal_simulation])
    together with the properties its specification states about it.

    Modelling choices.
    - A NumPy [float64] cell is a value of [num]: an exact rational, one of
      the two infinities, or NaN.  Arithmetic on finite values is exact
      (binary64 rounding error and overflow are not modelled, nor is the sign
      of zero); the special values follow IEEE 754 as NumPy applies it to
      arrays, where a division by zero gives an infinity or NaN and a
      warning, not an exception.
    - A 2-D array is the list of its rows, a row the list of its cells.
    - [np.random.randn] reads the process-wide generator: the generator is
      the sequence of standard normal draws still to come, and it is threaded
      through the simulators by a state-and-exception monad.
    - Python exceptions ([ValueError] for a negative dimension, [IndexError]
      for a row index out of range) are results of type [result]. *)

From Stdlib Require Import ZArith QArith Qcanon List Lia Lqa Bool.
Import ListNotations.

(** ** Numbers *)

Module Num.

Inductive num : Type :=
| Fin (q : Qc)
| PInf
| NInf
| NaN.

Definition of_Z (z : Z) : num := Fin (Q2Qc (inject_Z z)).

(** The sign of a value: [Gt] positive, [Lt] negative, [Eq] zero;
    NaN has none. *)
Definition sign (a : num) : option comparison :=
  match a with
  | Fin q => Some (q ?= Q2Qc 0)%Qc
  | PInf => Some Gt
  | NInf => Some Lt
  | NaN => None
  end.

Definition inf_of (s : comparison) : num :=
  match s with
  | Gt => PInf
  | Lt => NInf
  | Eq => NaN
  end.

Definition sign_mul (s1 s2 : comparison) : comparison :=
  match s1, s2 with
  | Eq, _ | _, Eq => Eq
  | Gt, s | s, Gt => s
  | Lt, Lt => Gt
  end.

Definition opp (a : num) : num :=
  match a with
  | Fin q => Fin (- q)%Qc
  | PInf => NInf
  | NInf => PInf
  | NaN => NaN
  end.

Definition add (a b : num) : num :=
  match a, b with
  | NaN, _ | _, NaN => NaN
  | Fin x, Fin y => Fin (x + y)%Qc
  | PInf, NInf | NInf, PInf => NaN
  | PInf, _ | _, PInf => PInf
  | NInf, _ | _, NInf => NInf
  end.

Definition sub (a b : num) : num := add a (opp b).

Definition mul (a b : num) : num :=
  match a, b with
  | Fin x, Fin y => Fin (x * y)%Qc
  | _, _ =>
      match sign a, sign b with
      | Some s1, Some s2 => inf_of (sign_mul s1 s2)
      | _, _ => NaN
      end
  end.

(** [x / 0] is an infinity of the sign of [x], and [0 / 0] is NaN. *)
Definition div (a b : num) : num :=
  match a, b with
  | NaN, _ | _, NaN => NaN
  | Fin x, Fin y =>
      if Qc_eq_dec y (Q2Qc 0) then inf_of (x ?= Q2Qc 0)%Qc
      else Fin (x / y)%Qc
  | Fin _, _ => Fin (Q2Qc 0)
  | _, Fin y =>
      match (y ?= Q2Qc 0)%Qc with
      | Lt => opp a
      | _ => a
      end
  | _, _ => NaN
  end.

(** [x ** k] for a natural exponent; [x ** 0] is 1 for every [x]. *)
Fixpoint pow (a : num) (k : nat) : num :=
  match k with
  | O => of_Z 1
  | S k' => mul a (pow a k')
  end.

(** [a < b] and [a > b] on cells; every comparison with NaN is false. *)
Definition ltb (a b : num) : bool :=
  match a, b with
  | NaN, _ | _, NaN => false
  | Fin x, Fin y => match (x ?= y)%Qc with Lt => true | _ => false end
  | NInf, NInf => false
  | NInf, _ => true
  | _, PInf => match a with PInf => false | _ => true end
  | _, _ => false
  end.

Definition gtb (a b : num) : bool := ltb b a.

(** Round to the nearest integer, ties to the even one ([rint]). *)
Definition rint (q : Qc) : Z :=
  let n := Qnum q in
  let d := Zpos (Qden q) in
  let fl := (n / d)%Z in
  match (2 * (n mod d) ?= d)%Z with
  | Lt => fl
  | Gt => (fl + 1)%Z
  | Eq => if Z.even fl then fl else (fl + 1)%Z
  end.

(** [np.round(a, decimals)]: scale by [10 ** decimals], round to the nearest
    integer, scale back.  Infinities and NaN are returned as they are. *)
Definition round (a : num) (decimals : nat) : num :=
  match a with
  | Fin q =>
      let scale := Q2Qc (inject_Z (10 ^ Z.of_nat decimals)) in
      Fin (Q2Qc (inject_Z (rint (q * scale)%Qc)) / scale)%Qc
  | _ => a
  end.

Definition leb (a b : num) : bool :=
  match a, b with
  | NaN, _ | _, NaN => false
  | Fin x, Fin y => match (x ?= y)%Qc with Gt => false | _ => true end
  | NInf, _ | _, PInf => true
  | _, _ => false
  end.

End Num.

Export Num.

Declare Scope num_scope.
Delimit Scope num_scope with num.
Bind Scope num_scope with num.
Infix "+" := Num.add : num_scope.
Infix "-" := Num.sub : num_scope.
Infix "*" := Num.mul : num_scope.
Infix "/" := Num.div : num_scope.

(** A decimal literal [n / d]. *)
Definition dec (n : Z) (d : positive) : num := Fin (Q2Qc (n # d)).

(** [np.sqrt(12)]: the binary64 value closest to the square root of 12,
    3.4641016151377544, as an exact fraction. *)
Definition sqrt12 : num := dec 3900231685776981 1125899906842624.

(** ** Arrays *)

Definition row := list num.
Definition matrix := list row.

Fixpoint zip_with {A B C : Type} (f : A -> B -> C)
    (l1 : list A) (l2 : list B) : list C :=
  match l1, l2 with
  | a :: l1', b :: l2' => f a b :: zip_with f l1' l2'
  | _, _ => []
  end.

(** Element-wise operations on rows.  Every row the simulators combine has
    [n_simulations] cells (see [growth_simulation_run] and
    [withdrawal_simulation_run]), so NumPy's broadcasting never sees rows of
    different lengths there. *)
Definition vadd : row -> row -> row := zip_with Num.add.
Definition vsub : row -> row -> row := zip_with Num.sub.
Definition vmul : row -> row -> row := zip_with Num.mul.
Definition vdiv : row -> row -> row := zip_with Num.div.

(** A scalar on one side of the operator. *)
Definition sadd (s : num) (v : row) : row := map (Num.add s) v.
Definition vsubs (v : row) (s : num) : row := map (fun x => Num.sub x s) v.
Definition vdivs (v : row) (s : num) : row := map (fun x => Num.div x s) v.
Definition vpow (v : row) (k : nat) : row := map (fun x => Num.pow x k) v.
Definition np_round (v : row) (decimals : nat) : row :=
  map (fun x => Num.round x decimals) v.

(** ** Exceptions and the random generator *)

Inductive exn : Type := ValueError | IndexError.

Inductive result (A : Type) : Type :=
| Ok (a : A)
| Raise (e : exn).
Arguments Ok {A} a.
Arguments Raise {A} e.

Definition rbind {A B : Type} (r : result A) (k : A -> result B) : result B :=
  match r with
  | Ok a => k a
  | Raise e => Raise e
  end.

(** The generator: the standard normal draws still to come. *)
Definition rng := nat -> Qc.

(** A computation that may draw from the generator and may raise. *)
Definition M (A : Type) : Type := rng -> result (A * rng).

Definition ret {A : Type} (a : A) : M A := fun g => Ok (a, g).

Definition bind {A B : Type} (m : M A) (k : A -> M B) : M B :=
  fun g =>
    match m g with
    | Ok (a, g') => k a g'
    | Raise e => Raise e
    end.

Definition lift {A : Type} (r : result A) : M A :=
  fun g =>
    match r with
    | Ok a => Ok (a, g)
    | Raise e => Raise e
    end.

Declare Scope monad_scope.
Delimit Scope monad_scope with monad.
Notation "x <- m ;; k" := (bind m (fun x => k))
  (at level 61, m at next level, right associativity) : monad_scope.
Notation "x <~ r ;; k" := (rbind r (fun x => k))
  (at level 61, r at next level, right associativity) : monad_scope.

(** [for j in range(n): s = body(j, s)], stopping at the first exception. *)
Definition for_range {S : Type} (n : nat) (body : nat -> S -> result S)
    (s : S) : result S :=
  fold_left (fun acc j => rbind acc (body j)) (seq 0 n) (Ok s).

(** [m[j, :]] for [j >= 0]. *)
Definition get_row (m : matrix) (j : nat) : result row :=
  match nth_error m j with
  | Some r => Ok r
  | None => Raise IndexError
  end.

Fixpoint replace_row (m : matrix) (j : nat) (r : row) : matrix :=
  match m, j with
  | [], _ => []
  | _ :: m', O => r :: m'
  | r0 :: m', S j' => r0 :: replace_row m' j' r
  end.

(** [m[j, :] = r] for [j >= 0]. *)
Definition set_row (m : matrix) (j : nat) (r : row) : result matrix :=
  if (j <? length m)%nat then Ok (replace_row m j r) else Raise IndexError.

Definition neg_dim (rows cols : Z) : bool := ((rows <? 0) || (cols <? 0))%Z.

(** [np.full((rows, cols), v)]. *)
Definition np_full (rows cols : Z) (v : num) : result matrix :=
  if neg_dim rows cols then Raise ValueError
  else Ok (repeat (repeat v (Z.to_nat cols)) (Z.to_nat rows)).

(** [np.zeros((rows, cols))]. *)
Definition np_zeros (rows cols : Z) : result matrix :=
  np_full rows cols (of_Z 0).

(** [np.repeat(m, k, axis=0)]: every row [k] times in a row. *)
Definition np_repeat (m : matrix) (k : nat) : matrix :=
  flat_map (fun r => repeat r k) m.

(** [np.random.randn(rows, cols)]: the next [rows * cols] draws, in row-major
    order. *)
Definition randn (rows cols : Z) : M matrix :=
  fun g =>
    if neg_dim rows cols then Raise ValueError
    else
      let r := Z.to_nat rows in
      let c := Z.to_nat cols in
      Ok (map (fun i => map (fun j => Fin (g (i * c + j)%nat)) (seq 0 c))
              (seq 0 r),
          fun k => g (k + r * c)%nat).

(** [m[:-k, :]]. *)
Definition drop_last (k : nat) (m : matrix) : matrix :=
  firstn (length m - k) m.

(** ** The program *)

Local Open Scope monad_scope.

Definition sims_matrix (rows cols : Z) (mean stdev : num) : M matrix :=
  x <- randn rows cols ;;
  let x := map (map (fun xi => mean + (xi * stdev))%num) x in
  ret x.

Definition growth (principal rate : row) (n : nat) (contribution : row)
    : row :=
  let t := 1%nat in
  let n' := of_Z (Z.of_nat n) in
  let compound_interest :=
    vmul principal (vpow (sadd (of_Z 1) (vdivs rate n')) (n * t)) in
  let contributions :=
    vmul contribution
         (vdiv (vsubs (vpow (sadd (of_Z 1) (vdivs rate n')) (n * t)) (of_Z 1))
               (vdivs rate n')) in
  np_round (vadd compound_interest contributions) 2.

Definition growth_simulation
    (start_capital return_mean return_stdev raise_mean raise_stdev
     monthly_contribution : num) (n_years n_simulations : Z) : M matrix :=
  (* Convert mean and standard deviations from percents to decimals *)
  let return_mean := (return_mean / of_Z 100)%num in
  let return_stdev := (return_stdev / of_Z 100)%num in
  let raise_mean := (raise_mean / of_Z 100)%num in
  let raise_stdev := (raise_stdev / of_Z 100)%num in
  (* Convert annual values to monthly *)
  let n_months := (12 * n_years)%Z in
  let monthly_return_mean := (return_mean / of_Z 12)%num in
  let monthly_return_stdev := (return_stdev / sqrt12)%num in
  (* Simulate returns and raises *)
  monthly_returns <-
    sims_matrix (n_months + 12) n_simulations
                monthly_return_mean monthly_return_stdev ;;
  raises <-
    sims_matrix n_years n_simulations (raise_mean + of_Z 1)%num raise_stdev ;;
  (* Contributions adjusted for annual inflation raises *)
  contributions <-
    lift (np_full (n_years + 1) n_simulations monthly_contribution) ;;
  contributions <-
    lift (for_range (Z.to_nat n_years)
            (fun j contributions =>
               cj <~ get_row contributions j ;;
               rj <~ get_row raises j ;;
               set_row contributions (j + 1) (vmul cj rj))
            contributions) ;;
  let contributions := np_repeat contributions 12 in
  zeros <- lift (np_zeros 1 n_simulations) ;;
  let contributions := zeros ++ contributions in
  (* Simulate growth *)
  sims <- lift (np_full (n_months + 12) n_simulations start_capital) ;;
  sims <-
    lift (for_range (Z.to_nat (n_months + 11))
            (fun j sims =>
               p <~ get_row sims j ;;
               r <~ get_row monthly_returns j ;;
               c <~ get_row contributions (j + 1) ;;
               set_row sims (j + 1) (growth p r 1 c))
            sims) ;;
  ret (drop_last 11 sims).

Definition withdrawal_simulation
    (start_capital return_mean return_stdev inflation_mean inflation_stdev
     monthly_withdrawal : num) (n_years n_simulations : Z) : M matrix :=
  (* Convert mean percents to decimals *)
  let return_mean :=
    if Num.gtb return_mean (of_Z 1) then (return_mean / of_Z 100)%num
    else return_mean in
  let inflation_mean :=
    if Num.gtb inflation_mean (of_Z 1) then (inflation_mean / of_Z 100)%num
    else inflation_mean in
  (* Convert annual values to monthly *)
  let n_months := (12 * n_years)%Z in
  let monthly_return_mean := (return_mean / of_Z 12)%num in
  let monthly_return_stdev := (return_stdev / sqrt12)%num in
  let monthly_inflation_mean := (inflation_mean / of_Z 12)%num in
  let monthly_inflation_stdev := (inflation_stdev / sqrt12)%num in
  (* Simulate returns and inflation *)
  monthly_returns <-
    sims_matrix n_months n_simulations
                monthly_return_mean monthly_return_stdev ;;
  monthly_inflation <-
    sims_matrix n_months n_simulations
                monthly_inflation_mean monthly_inflation_stdev ;;
  monthly_withdrawal <-
    sims_matrix n_months n_simulations monthly_withdrawal (dec 5 100) ;;
  (* Simulate withdrawals *)
  sims <- lift (np_full (n_months + 1) n_simulations start_capital) ;;
  sims <-
    lift (for_range (Z.to_nat n_months)
            (fun j sims =>
               p <~ get_row sims j ;;
               r <~ get_row monthly_returns j ;;
               i <~ get_row monthly_inflation j ;;
               w <~ get_row monthly_withdrawal j ;;
               set_row sims (j + 1)
                 (vsub (vmul p (vsub (sadd (of_Z 1) r) i)) w))
            sims) ;;
  (* Set sims values below 0 to NaN *)
  let sims :=
    map (map (fun v => if Num.ltb v (of_Z 0) then NaN else v)) sims in
  (* convert to millions *)
  let sims := map (map (fun v => v / of_Z 1000000)%num) sims in
  ret sims.

(** ** Tabulated rows and tables

    [tab n h] is the list [h 0; ...; h (n - 1)]; a table given cell by cell
    is [table r c cell]. *)

Definition tab {A : Type} (n : nat) (h : nat -> A) : list A :=
  map h (seq 0 n).

Definition table (r c : nat) (cell : nat -> nat -> num) : matrix :=
  tab r (fun i => tab c (cell i)).

(** [m[i, j]]; NaN stands in outside the table. *)
Definition cell_at (m : matrix) (i j : nat) : num := nth j (nth i m []) NaN.

(** [shape m r c]: [m] has [r] rows of [c] cells each. *)
Definition shape (m : matrix) (r c : nat) : Prop :=
  length m = r /\ Forall (fun x => length x = c) m.

(** The rows a loop [m[j + 1] = f(j, m[j])] writes, starting from [r0]. *)
Fixpoint rec_row (f : nat -> row -> row) (r0 : row) (j : nat) : row :=
  match j with
  | O => r0
  | S j' => f j' (rec_row f r0 j')
  end.

(** Equality of cells, decided. *)
Definition num_eqb (a b : num) : bool :=
  match a, b with
  | Fin x, Fin y => Qc_eq_bool x y
  | PInf, PInf | NInf, NInf | NaN, NaN => true
  | _, _ => false
  end.

(** ** Runs *)

(** [returns m g a]: run on generator [g], [m] raises nothing and returns
    [a]. *)
Definition returns {A : Type} (m : M A) (g : rng) (a : A) : Prop :=
  exists g', m g = Ok (a, g').

(** [raises m g]: run on generator [g], [m] raises an exception. *)
Definition raises {A : Type} (m : M A) (g : rng) (e : exn) : Prop :=
  m g = Raise e.

(** The generator after [k] draws. *)
Definition advance (g : rng) (k : nat) : rng := fun i => g (i + k)%nat.

(** Cell [(i, j)] of [sims_matrix(rows, c, mean, stdev)] run on [g]. *)
Definition noise_cell (g : rng) (c : nat) (mean stdev : num) (i j : nat)
    : num :=
  (mean + Fin (g (i * c + j)%nat) * stdev)%num.

(** Generators for the examples: every draw 0, and draws 0, 0.1, 0.2, ... *)
Definition rng_zero : rng := fun _ => Q2Qc 0.
Definition rng_ramp : rng := fun k => Q2Qc (Z.of_nat k # 10).

(** A generator for the examples: every draw 0 but the draws 24 and 25,
    which are 2 and -2. *)
Definition rng_bounce : rng :=
  fun k =>
    if (k =? 24)%nat then Q2Qc 2
    else if (k =? 25)%nat then Q2Qc (-2)
    else Q2Qc 0.

(** ** The simulators, cell by cell

    What the vectorised, in-place code computes for one cell: the per-column
    recurrences the theorems are stated on. *)

(** One cell of [growth]. *)
Definition growth1 (principal rate : num) (n : nat) (contribution : num)
    : num :=
  let n' := of_Z (Z.of_nat n) in
  let factor := Num.pow (of_Z 1 + rate / n')%num n in
  Num.round
    (principal * factor
     + contribution * ((factor - of_Z 1) / (rate / n')))%num 2.

Section AccumulationCells.

Variables start_capital return_mean return_stdev : num.
Variables raise_mean raise_stdev monthly_contribution : num.
Variables ny ns : nat.
Variable g : rng.

(** The monthly return drawn for month [j], column [c]. *)
Definition acc_rate (j c : nat) : num :=
  noise_cell g ns
    (return_mean / of_Z 100 / of_Z 12)%num
    (return_stdev / of_Z 100 / sqrt12)%num j c.

(** The raise factor drawn for year [y], column [c]. *)
Definition acc_raise (y c : nat) : num :=
  noise_cell (advance g ((12 * ny + 12) * ns)) ns
    (raise_mean / of_Z 100 + of_Z 1)%num
    (raise_stdev / of_Z 100)%num y c.

(** The monthly contribution during year [y]. *)
Fixpoint acc_contribution (y c : nat) : num :=
  match y with
  | O => monthly_contribution
  | S y' => (acc_contribution y' c * acc_raise y' c)%num
  end.

(** The balance after [j] months. *)
Fixpoint acc_cell (j c : nat) : num :=
  match j with
  | O => start_capital
  | S j' =>
      growth1 (acc_cell j' c) (acc_rate j' c) 1
              (acc_contribution (j' / 12) c)
  end.

End AccumulationCells.

(** An annual mean as [withdrawal_simulation] uses it. *)
Definition dec_mean (x : num) : num :=
  if Num.gtb x (of_Z 1) then (x / of_Z 100)%num else x.

(** [sims[sims < 0] = np.nan] on one cell. *)
Definition ruin_mask (v : num) : num :=
  if Num.ltb v (of_Z 0) then NaN else v.

(** [sims / 1000000] on one cell. *)
Definition to_millions (v : num) : num := (v / of_Z 1000000)%num.

Section DecumulationCells.

Variables start_capital return_mean return_stdev : num.
Variables inflation_mean inflation_stdev monthly_withdrawal : num.
Variables ny ns : nat.
Variable g : rng.

(** The monthly return drawn for month [j], column [c]. *)
Definition dec_return (j c : nat) : num :=
  noise_cell g ns
    (dec_mean return_mean / of_Z 12)%num
    (return_stdev / sqrt12)%num j c.

(** The monthly inflation drawn for month [j], column [c]. *)
Definition dec_inflation (j c : nat) : num :=
  noise_cell (advance g (12 * ny * ns)) ns
    (dec_mean inflation_mean / of_Z 12)%num
    (inflation_stdev / sqrt12)%num j c.

(** The withdrawal drawn for month [j], column [c]. *)
Definition dec_withdrawal (j c : nat) : num :=
  noise_cell (advance (advance g (12 * ny * ns)) (12 * ny * ns)) ns
    monthly_withdrawal (dec 5 100) j c.

(** The balance after [j] months, before masking and rescaling. *)
Fixpoint dec_balance (j c : nat) : num :=
  match j with
  | O => start_capital
  | S j' =>
      (dec_balance j' c
       * (of_Z 1 + dec_return j' c - dec_inflation j' c)
       - dec_withdrawal j' c)%num
  end.

(** The cell of the returned table. *)
Definition dec_cell (j c : nat) : num :=
  to_millions (ruin_mask (dec_balance j c)).

End DecumulationCells.

(** ** Definitions for single claims *)

(** The rule of the specification for a percentage input: a value above 1
    is a percentage and is divided by 100, any other value is used as it
    is. *)
Definition spec_normalize (x : num) : num :=
  if Num.gtb x (of_Z 1) then (x / of_Z 100)%num else x.

(** The balance after [t] months of a decumulation run with start capital 1,
    no return, no inflation and a withdrawal target of 0: 1 less 0.05 times
    each withdrawal draw so far (the draws 24, 25, ... of the run). *)
Fixpoint unit_balance (g : rng) (t : nat) : Qc :=
  match t with
  | O => Q2Qc 1
  | S t' => (unit_balance g t' - Q2Qc (5 # 100) * g (24 + t')%nat)%Qc
  end.

(** ** The accumulation schedule for finite inputs

    The monthly rate, the raise factor and the monthly contribution of
    [growth_simulation] as rationals, for inputs that are finite numbers. *)

Definition sqrt12_q : Qc := Q2Qc (3900231685776981 # 1125899906842624).

Definition fin_rate (rm rs : Qc) (ns : nat) (g : rng) (j c : nat) : Qc :=
  (rm / Q2Qc 100 / Q2Qc 12
   + g (j * ns + c)%nat * (rs / Q2Qc 100 / sqrt12_q))%Qc.

Definition fin_raise (am asd : Qc) (ny ns : nat) (g : rng) (y c : nat) : Qc :=
  (am / Q2Qc 100 + Q2Qc 1
   + advance g ((12 * ny + 12) * ns) (y * ns + c)%nat
     * (asd / Q2Qc 100))%Qc.

Fixpoint fin_contribution (am asd mc : Qc) (ny ns : nat) (g : rng)
    (y c : nat) : Qc :=
  match y with
  | O => mc
  | S y' =>
      (fin_contribution am asd mc ny ns g y' c
       * fin_raise am asd ny ns g y' c)%Qc
  end.

(** ** The series the plots draw

    [growth_plot] and [withdrawal_plot] compute a few series from the table
    they are given and hand them to the plotting library.  The series are
    modelled below under the names of the variables that hold them; the
    drawing itself is not modelled. *)

(** [nav_df.shape[1]], read off the first row (a table with no row has no
    row to sum either). *)
Definition ncols (m : matrix) : nat :=
  match m with
  | [] => O
  | r :: _ => length r
  end.

(** [(nav_df > 0).sum(axis=1) / nav_df.shape[1] * 100]. *)
Definition percent_above_zero (nav_df : matrix) : row :=
  map (fun r =>
         (of_Z (Z.of_nat (length (filter (fun v => Num.gtb v (of_Z 0)) r)))
          / of_Z (Z.of_nat (ncols nav_df)) * of_Z 100)%num)
      nav_df.

(** A count as a rational. *)
Definition of_nat_q (k : nat) : Qc := Q2Qc (inject_Z (Z.of_nat k)).

(** [np.linspace(start, stop, num)]: [num] values from [start] to [stop],
    the last one set to [stop]. *)
Definition linspace (start stop : Qc) (num : nat) : list Qc :=
  match num with
  | O => []
  | S O => [start]
  | S div =>
      let step := ((stop - start) / of_nat_q div)%Qc in
      removelast
        (map (fun i => of_nat_q i * step + start)%Qc (seq 0 num))
      ++ [stop]
  end.

(** [np.linspace(0, nav_df.shape[0]/12, num=nav_df.shape[0]) + origin], with
    [origin] the current year in [growth_plot] and [retire_age] in
    [withdrawal_plot]. *)
Definition xlabs (nav_df : matrix) (origin : Qc) : list Qc :=
  let rows := length nav_df in
  map (fun x => x + origin)%Qc
      (linspace (Q2Qc 0) (of_nat_q rows / Q2Qc 12)%Qc rows).

(** [int(nav_df[1:].shape[0]/12)], the number of years in the title of
    [withdrawal_plot]. *)
Definition title_years (nav_df : matrix) : nat :=
  (length (skipn 1 nav_df) / 12)%nat.

Definition isnan (v : num) : bool :=
  match v with
  | NaN => true
  | _ => false
  end.

(** [df.ffill()]: a NaN cell takes the value above it, itself filled. *)
Fixpoint ffill_from (prev : row) (m : matrix) : matrix :=
  match m with
  | [] => []
  | r :: m' =>
      let r' := zip_with (fun p v => if isnan v then p else v) prev r in
      r' :: ffill_from r' m'
  end.

Definition ffill (m : matrix) : matrix :=
  match m with
  | [] => []
  | r :: m' => r :: ffill_from r m'
  end.

(** [df.fillna(x)]. *)
Definition fillna (x : num) (m : matrix) : matrix :=
  map (map (fun v => if isnan v then x else v)) m.

(** [df.iloc[-1, :]]. *)
Definition iloc_last (m : matrix) : result row :=
  match m with
  | [] => Raise IndexError
  | _ :: _ => Ok (last m [])
  end.

(** [nav_df.ffill().fillna(0).iloc[-1, :]], the first statement of
    [withdrawal_plot]. *)
Definition nav_df_zeros (nav_df : matrix) : result row :=
  iloc_last (fillna (of_Z 0) (ffill nav_df)).

(** The masks of [withdrawal_plot] on one percentage [pct], for the
    threshold [s = scenario_percent]: the green, red and khaki lines, and
    the red, green and yellow fills. *)
Definition line_green (pct s : num) : bool := Num.gtb pct s.
Definition line_red (pct s : num) : bool := Num.ltb pct s.
Definition in_band (pct s : num) : bool :=
  Num.leb (s - dec 25 10)%num pct && Num.leb pct (s + dec 25 10)%num.
Definition fill_red (pct s : num) : bool := Num.ltb pct (s - dec 25 10)%num.
Definition fill_green (pct s : num) : bool := Num.gtb pct (s + dec 25 10)%num.

(** The last value of [col 0], ..., [col j] that is not NaN; NaN when there
    is none. *)
Fixpoint last_valid (col : nat -> num) (j : nat) : num :=
  match j with
  | O => col O
  | S j' => if isnan (col j) then last_valid col j' else col j
  end.

(** * Proofs *)

(** ** Tabulated rows and tables *)

Lemma length_tab {A : Type} (n : nat) (h : nat -> A) : length (tab n h) = n.
Proof. unfold tab. now rewrite length_map, length_seq. Qed.

Lemma tab_S {A : Type} (n : nat) (h : nat -> A) :
  tab (S n) h = tab n h ++ [h n].
Proof. unfold tab. now rewrite seq_S, map_app. Qed.

Lemma tab_ext {A : Type} (n : nat) (h h' : nat -> A) :
  (forall j, (j < n)%nat -> h j = h' j) -> tab n h = tab n h'.
Proof.
  intros E. unfold tab. apply map_ext_in.
  intros j Hj. apply in_seq in Hj. apply E. lia.
Qed.

Lemma nth_error_tab {A : Type} (n : nat) (h : nat -> A) (j : nat) :
  (j < n)%nat -> nth_error (tab n h) j = Some (h j).
Proof.
  intros Hj. unfold tab.
  rewrite nth_error_map, nth_error_nth' with (d := 0%nat)
    by now rewrite length_seq.
  now rewrite seq_nth.
Qed.

Lemma nth_tab {A : Type} (n : nat) (h : nat -> A) (j : nat) (d : A) :
  (j < n)%nat -> nth j (tab n h) d = h j.
Proof.
  intros Hj. apply nth_error_nth. now apply nth_error_tab.
Qed.

Lemma repeat_tab {A : Type} (v : A) (n : nat) : repeat v n = tab n (fun _ => v).
Proof.
  induction n as [|n IH]; [reflexivity|].
  rewrite tab_S, <- IH. simpl. apply repeat_cons.
Qed.

Lemma map_tab {A B : Type} (f : A -> B) (n : nat) (h : nat -> A) :
  map f (tab n h) = tab n (fun j => f (h j)).
Proof. unfold tab. now rewrite map_map. Qed.

Lemma firstn_tab {A : Type} (k n : nat) (h : nat -> A) :
  (k <= n)%nat -> firstn k (tab n h) = tab k h.
Proof.
  intros Hk. replace n with (k + (n - k))%nat by lia.
  unfold tab. rewrite seq_app, map_app, firstn_app.
  rewrite length_map, length_seq, Nat.sub_diag, firstn_O, app_nil_r.
  apply firstn_all2. now rewrite length_map, length_seq.
Qed.

Lemma zip_with_map {A B C D : Type} (f : A -> B -> C)
    (a : D -> A) (b : D -> B) (l : list D) :
  zip_with f (map a l) (map b l) = map (fun x => f (a x) (b x)) l.
Proof. induction l as [|x l IH]; simpl; now rewrite ?IH. Qed.

Lemma zip_with_tab {A B C : Type} (f : A -> B -> C) (n : nat)
    (a : nat -> A) (b : nat -> B) :
  zip_with f (tab n a) (tab n b) = tab n (fun j => f (a j) (b j)).
Proof. apply zip_with_map. Qed.

Lemma cell_at_table (r c : nat) (cell : nat -> nat -> num) (i j : nat) :
  (i < r)%nat -> (j < c)%nat -> cell_at (table r c cell) i j = cell i j.
Proof.
  intros Hi Hj. unfold cell_at, table.
  rewrite nth_tab by assumption. now apply nth_tab.
Qed.

Lemma np_repeat_tab (n k : nat) (h : nat -> row) :
  (0 < k)%nat ->
  np_repeat (tab n h) k = tab (n * k) (fun j => h (j / k)%nat).
Proof.
  intros Hk. unfold np_repeat.
  induction n as [|n IH]; [reflexivity|].
  rewrite tab_S, flat_map_app, IH. simpl flat_map. rewrite app_nil_r.
  replace (S n * k)%nat with (n * k + k)%nat by lia.
  unfold tab. rewrite seq_app, map_app. f_equal. simpl.
  rewrite map_ext_in with (g := fun _ => h n).
  - now rewrite map_const, length_seq.
  - intros j Hj. apply in_seq in Hj. f_equal.
    symmetry. apply Nat.div_unique with (r := (j - n * k)%nat); lia.
Qed.

(** ** Loops that fill a table row by row *)

Lemma for_range_S {S : Type} (n : nat) (body : nat -> S -> result S) (s : S) :
  for_range (Datatypes.S n) body s = rbind (for_range n body s) (body n).
Proof. unfold for_range. now rewrite seq_S, fold_left_app. Qed.

Lemma replace_row_app (l1 l2 : matrix) (x r : row) :
  replace_row (l1 ++ x :: l2) (length l1) r = l1 ++ r :: l2.
Proof. induction l1 as [|y l1 IH]; simpl; now rewrite ?IH. Qed.

Lemma skipn_cons_next {A : Type} (n : nat) (l : list A) :
  (n < length l)%nat -> exists x, skipn n l = x :: skipn (S n) l.
Proof.
  revert l. induction n as [|n IH]; intros [|y l] Hn; simpl in *; try lia.
  - now exists y.
  - apply IH. lia.
Qed.

Lemma for_range_rec (body : nat -> matrix -> result matrix)
    (f : nat -> row -> row) (n : nat) (m : matrix) (r0 : row) :
  (forall j m' p, (j < n)%nat -> (S j < length m')%nat ->
     nth_error m' j = Some p ->
     body j m' = Ok (replace_row m' (S j) (f j p))) ->
  (n < length m)%nat ->
  nth_error m 0 = Some r0 ->
  for_range n body m = Ok (tab (S n) (rec_row f r0) ++ skipn (S n) m).
Proof.
  intros Hbody Hlen H0. induction n as [|n IH].
  - destruct m as [|x m]; simpl in *; [discriminate|]. now inversion H0.
  - rewrite for_range_S, IH by (intros; auto with arith; lia). cbn [rbind].
    destruct (skipn_cons_next (S n) m Hlen) as [x Hx].
    rewrite Hx.
    rewrite (Hbody n _ (rec_row f r0 n)).
    + f_equal. rewrite (tab_S (S n)), <- app_assoc. cbn [app].
      pose proof (replace_row_app (tab (S n) (rec_row f r0))
                    (skipn (S (S n)) m) x (f n (rec_row f r0 n))) as E.
      rewrite length_tab in E. exact E.
    + lia.
    + rewrite length_app, length_tab. cbn [length]. lia.
    + rewrite nth_error_app1 by (rewrite length_tab; lia).
      apply nth_error_tab. lia.
Qed.

(** ** Running the random matrix generator *)

Lemma neg_dim_of_nat (r c : nat) : neg_dim (Z.of_nat r) (Z.of_nat c) = false.
Proof.
  unfold neg_dim. apply orb_false_iff. split; apply Z.ltb_ge; lia.
Qed.

Lemma sims_matrix_run (r c : nat) (mean stdev : num) (g : rng) :
  sims_matrix (Z.of_nat r) (Z.of_nat c) mean stdev g
  = Ok (table r c (noise_cell g c mean stdev), advance g (r * c)).
Proof.
  unfold sims_matrix, bind, randn, ret.
  rewrite neg_dim_of_nat, !Nat2Z.id. unfold table, tab, noise_cell.
  rewrite map_map. f_equal. f_equal.
  apply map_ext. intros i. now rewrite map_map.
Qed.

Lemma np_full_run (r c : nat) (v : num) :
  np_full (Z.of_nat r) (Z.of_nat c) v = Ok (table r c (fun _ _ => v)).
Proof.
  unfold np_full. rewrite neg_dim_of_nat, !Nat2Z.id.
  unfold table. now rewrite !repeat_tab.
Qed.

Lemma growth_tab (k n : nat) (p r c : nat -> num) :
  growth (tab k p) (tab k r) n (tab k c)
  = tab k (fun j => growth1 (p j) (r j) n (c j)).
Proof.
  unfold growth, growth1, np_round, vadd, vmul, vdiv, vsubs, vpow, sadd,
    vdivs.
  rewrite Nat.mul_1_r.
  now rewrite !map_tab, !zip_with_tab, !map_tab.
Qed.


(** ** The simulators compute the cell-by-cell recurrences *)

Section AccumulationRun.

Variables start_capital return_mean return_stdev : num.
Variables raise_mean raise_stdev monthly_contribution : num.
Variables ny ns : nat.
Variable g : rng.

Local Abbreviation rate := (acc_rate return_mean return_stdev ns g).
Local Abbreviation raise := (acc_raise raise_mean raise_stdev ny ns g).
Local Abbreviation contribution :=
  (acc_contribution raise_mean raise_stdev monthly_contribution ny ns g).
Local Abbreviation cell :=
  (acc_cell start_capital return_mean return_stdev raise_mean raise_stdev
     monthly_contribution ny ns g).

Lemma contributions_rows (y : nat) :
  rec_row (fun j p => vmul p (tab ns (raise j)))
          (tab ns (fun _ => monthly_contribution)) y
  = tab ns (contribution y).
Proof.
  induction y as [|y IH]; [reflexivity|].
  cbn [rec_row]. rewrite IH. unfold vmul. now rewrite zip_with_tab.
Qed.

Lemma growth_rows (j : nat) :
  rec_row (fun j p =>
             growth p (tab ns (rate j)) 1 (tab ns (contribution (j / 12))))
          (tab ns (fun _ => start_capital)) j
  = tab ns (cell j).
Proof.
  induction j as [|j IH]; [reflexivity|].
  cbn [rec_row]. rewrite IH. now rewrite growth_tab.
Qed.

Lemma growth_simulation_run :
  growth_simulation start_capital return_mean return_stdev
    raise_mean raise_stdev monthly_contribution
    (Z.of_nat ny) (Z.of_nat ns) g
  = Ok (table (12 * ny + 1) ns cell,
        advance (advance g ((12 * ny + 12) * ns)) (ny * ns)).
Proof.
  unfold growth_simulation.
  replace (12 * Z.of_nat ny + 12)%Z with (Z.of_nat (12 * ny + 12)) by lia.
  replace (Z.of_nat ny + 1)%Z with (Z.of_nat (ny + 1)) by lia.
  replace (12 * Z.of_nat ny + 11)%Z with (Z.of_nat (12 * ny + 11)) by lia.
  change 1%Z with (Z.of_nat 1). unfold np_zeros.
  unfold bind. rewrite !sims_matrix_run.
  unfold lift. rewrite !np_full_run, !Nat2Z.id.
  rewrite for_range_rec
    with (f := fun j p => vmul p (tab ns (raise j)))
         (r0 := tab ns (fun _ => monthly_contribution)).
  - rewrite skipn_all2 by (unfold table; rewrite length_tab; lia).
    rewrite app_nil_r.
    rewrite (tab_ext _ _ _ (fun j _ => contributions_rows j)).
    rewrite np_repeat_tab by lia.
    rewrite for_range_rec
      with (f := fun j p =>
                   growth p (tab ns (rate j)) 1
                          (tab ns (contribution (j / 12))))
           (r0 := tab ns (fun _ => start_capital)).
    + rewrite skipn_all2 by (unfold table; rewrite length_tab; lia).
      rewrite app_nil_r.
      rewrite (tab_ext _ _ _ (fun j _ => growth_rows j)).
      unfold ret, drop_last. rewrite length_tab.
      rewrite firstn_tab by lia.
      do 2 f_equal. unfold table. f_equal. lia.
    + intros j m' p Hj Hm' Hp. unfold get_row, set_row.
      rewrite Hp. cbn [rbind]. unfold table at 1.
      rewrite nth_error_tab by lia. cbn [rbind].
      replace (j + 1)%nat with (S j) by lia. cbn [table tab map seq app].
      cbn [nth_error]. rewrite nth_error_tab by lia. cbn [rbind].
      now rewrite (proj2 (Nat.ltb_lt _ _) Hm').
    + unfold table. rewrite length_tab. lia.
    + unfold table. now rewrite nth_error_tab by lia.
  - intros j m' p Hj Hm' Hp. unfold get_row, set_row.
    rewrite Hp. cbn [rbind]. unfold table.
    rewrite nth_error_tab by lia. cbn [rbind].
    replace (j + 1)%nat with (S j) by lia.
    now rewrite (proj2 (Nat.ltb_lt _ _) Hm').
  - unfold table. rewrite length_tab. lia.
  - unfold table. now rewrite nth_error_tab by lia.
Qed.

End AccumulationRun.

Section DecumulationRun.

Variables start_capital return_mean return_stdev : num.
Variables inflation_mean inflation_stdev monthly_withdrawal : num.
Variables ny ns : nat.
Variable g : rng.

Local Abbreviation ret_ := (dec_return return_mean return_stdev ns g).
Local Abbreviation infl := (dec_inflation inflation_mean inflation_stdev ny ns g).
Local Abbreviation wdr := (dec_withdrawal monthly_withdrawal ny ns g).
Local Abbreviation balance :=
  (dec_balance start_capital return_mean return_stdev inflation_mean
     inflation_stdev monthly_withdrawal ny ns g).

Lemma withdrawal_rows (j : nat) :
  rec_row (fun j p =>
             vsub (vmul p (vsub (sadd (of_Z 1) (tab ns (ret_ j)))
                                (tab ns (infl j))))
                  (tab ns (wdr j)))
          (tab ns (fun _ => start_capital)) j
  = tab ns (balance j).
Proof.
  induction j as [|j IH]; [reflexivity|].
  cbn [rec_row]. rewrite IH. unfold vsub, vmul, sadd.
  now rewrite map_tab, !zip_with_tab.
Qed.

Lemma withdrawal_simulation_run :
  withdrawal_simulation start_capital return_mean return_stdev
    inflation_mean inflation_stdev monthly_withdrawal
    (Z.of_nat ny) (Z.of_nat ns) g
  = Ok (table (12 * ny + 1) ns
          (dec_cell start_capital return_mean return_stdev inflation_mean
             inflation_stdev monthly_withdrawal ny ns g),
        advance (advance (advance g (12 * ny * ns)) (12 * ny * ns))
                (12 * ny * ns)).
Proof.
  unfold withdrawal_simulation. fold (dec_mean return_mean).
  fold (dec_mean inflation_mean).
  replace (12 * Z.of_nat ny + 1)%Z with (Z.of_nat (12 * ny + 1)) by lia.
  replace (12 * Z.of_nat ny)%Z with (Z.of_nat (12 * ny)) by lia.
  unfold bind. rewrite !sims_matrix_run.
  unfold lift. rewrite !np_full_run, !Nat2Z.id.
  rewrite for_range_rec
    with (f := fun j p =>
                 vsub (vmul p (vsub (sadd (of_Z 1) (tab ns (ret_ j)))
                                    (tab ns (infl j))))
                      (tab ns (wdr j)))
         (r0 := tab ns (fun _ => start_capital)).
  - rewrite skipn_all2 by (unfold table; rewrite length_tab; lia).
    rewrite app_nil_r.
    rewrite (tab_ext _ _ _ (fun j _ => withdrawal_rows j)).
    unfold ret. do 2 f_equal. rewrite !map_tab. unfold table.
    replace (S (12 * ny)) with (12 * ny + 1)%nat by lia.
    apply tab_ext. intros j _. now rewrite !map_tab.
  - intros j m' p Hj Hm' Hp. unfold get_row, set_row.
    rewrite Hp. cbn [rbind]. unfold table.
    rewrite !nth_error_tab by lia. cbn [rbind].
    replace (j + 1)%nat with (S j) by lia.
    now rewrite (proj2 (Nat.ltb_lt _ _) Hm').
  - unfold table. rewrite length_tab. lia.
  - unfold table. now rewrite nth_error_tab by lia.
Qed.

End DecumulationRun.

(** ** Facts about numbers *)

Ltac qc_discr :=
  let E := fresh "E" in
  intro E; apply (f_equal this) in E; vm_compute in E; discriminate E.

Section NumFacts.

Local Open Scope Qc_scope.

Lemma mul_NaN_r (a : num) : (a * NaN)%num = NaN.
Proof. now destruct a. Qed.

Lemma add_NaN_r (a : num) : (a + NaN)%num = NaN.
Proof. now destruct a. Qed.

Lemma div_Fin (x y : Qc) :
  y <> Q2Qc 0 -> (Fin x / Fin y)%num = Fin (x / y).
Proof.
  intros Hy. unfold Num.div. now destruct (Qc_eq_dec y (Q2Qc 0)).
Qed.

Lemma pow_Fin (a : Qc) (k : nat) : Num.pow (Fin a) k = Fin (a ^ k).
Proof.
  induction k as [|k IH]; [reflexivity|].
  cbn [Num.pow Qcpower]. now rewrite IH.
Qed.

Lemma Qccompare_refl (x : Qc) : (x ?= x) = Eq.
Proof. now apply Qceq_alt. Qed.

(** Noise of spread 0 leaves the mean as it is. *)
Lemma noise_stdev_0 (mean : num) (x : Qc) :
  (mean + Fin x * of_Z 0)%num = mean.
Proof.
  unfold of_Z. change (inject_Z 0) with 0%Q. cbn [Num.mul].
  replace (x * Q2Qc 0) with (Q2Qc 0) by ring.
  destruct mean as [m| | |]; try reflexivity.
  cbn [Num.add]. f_equal. ring.
Qed.

(** With [rate = 0] the contribution term is [0 / 0]: [growth] gives NaN
    whatever the principal, the number of periods and the contribution. *)
Lemma growth1_rate_0 (principal : num) (n : nat) (contribution : num) :
  growth1 principal (of_Z 0) n contribution = NaN.
Proof.
  unfold growth1.
  assert (E : ((Num.pow (of_Z 1 + of_Z 0 / of_Z (Z.of_nat n)) n - of_Z 1)
               / (of_Z 0 / of_Z (Z.of_nat n)))%num = NaN).
  { unfold of_Z at 2 3 5 6. cbv beta iota delta [Num.div].
    change (inject_Z 0) with 0%Q.
    destruct (Qc_eq_dec (Q2Qc (inject_Z (Z.of_nat n))) (Q2Qc 0)) as [_|Hn].
    - rewrite Qccompare_refl. cbn [inf_of].
      now destruct (Num.sub _ _).
    - replace (Q2Qc 0 / Q2Qc (inject_Z (Z.of_nat n))) with (Q2Qc 0)
        by (unfold Qcdiv; ring).
      unfold of_Z. change (inject_Z 1) with 1%Q. cbn [Num.add].
      replace (1 + Q2Qc 0) with 1 by ring.
      rewrite pow_Fin, Qcpower_1. unfold Num.sub. cbn [Num.opp Num.add].
      replace (1 + Qcopp 1) with (Q2Qc 0) by ring.
      destruct (Qc_eq_dec (Q2Qc 0) (Q2Qc 0)) as [_|N]; [|now elim N].
      now rewrite Qccompare_refl. }
  rewrite E, mul_NaN_r, add_NaN_r. reflexivity.
Qed.

End NumFacts.

Lemma num_eqb_eq (a b : num) : num_eqb a b = true -> a = b.
Proof.
  destruct a, b; cbn; try discriminate; try reflexivity.
  intros H. f_equal. now apply Qc_eq_bool_correct.
Qed.

Lemma num_eqb_neq (a b : num) : num_eqb a b = false -> a <> b.
Proof.
  intros H E. subst b. destruct a; cbn in H; try discriminate H.
  unfold Qc_eq_bool in H. now destruct (Qc_eq_dec q q).
Qed.

Ltac num_eq := apply num_eqb_eq; vm_compute; reflexivity.
Ltac num_neq := apply num_eqb_neq; vm_compute; reflexivity.

Section MaskFacts.

Local Open Scope Qc_scope.

Lemma ltb_0_neg (q : Qc) : q < Q2Qc 0 -> Num.ltb (Fin q) (of_Z 0) = true.
Proof.
  intros H. unfold Num.ltb, of_Z. change (inject_Z 0) with 0%Q.
  now rewrite (proj1 (Qclt_alt _ _) H).
Qed.

Lemma ltb_0_nonneg (q : Qc) : Q2Qc 0 <= q -> Num.ltb (Fin q) (of_Z 0) = false.
Proof.
  intros H. unfold Num.ltb, of_Z. change (inject_Z 0) with 0%Q.
  destruct (q ?= Q2Qc 0) eqn:E; try reflexivity.
  apply Qclt_alt in E. now apply Qcle_not_lt in H.
Qed.

Lemma million_nonzero : Q2Qc 1000000 <> Q2Qc 0.
Proof. qc_discr. Qed.

Lemma masked_neg (q : Qc) :
  q < Q2Qc 0 -> to_millions (ruin_mask (Fin q)) = NaN.
Proof.
  intros H. unfold ruin_mask. now rewrite ltb_0_neg.
Qed.

Lemma masked_nonneg (q : Qc) :
  Q2Qc 0 <= q -> to_millions (ruin_mask (Fin q)) = Fin (q / Q2Qc 1000000).
Proof.
  intros H. unfold ruin_mask. rewrite ltb_0_nonneg by assumption.
  unfold to_millions, of_Z. change (inject_Z 1000000) with 1000000%Q.
  apply div_Fin, million_nonzero.
Qed.

Lemma masked_zero : to_millions (ruin_mask (Fin (Q2Qc 0))) = Fin (Q2Qc 0).
Proof.
  rewrite masked_nonneg by apply Qcle_refl. f_equal.
  unfold Qcdiv. ring.
Qed.

End MaskFacts.

Section ZeroNoise.

Local Open Scope Qc_scope.

Lemma zero_by_sqrt12 : (of_Z 0 / sqrt12)%num = of_Z 0.
Proof. num_eq. Qed.

Lemma zero_by_12 : (of_Z 0 / of_Z 12)%num = of_Z 0.
Proof. num_eq. Qed.

Lemma zero_pct_by_sqrt12 : (of_Z 0 / of_Z 100 / sqrt12)%num = of_Z 0.
Proof. num_eq. Qed.

Lemma zero_pct : (of_Z 0 / of_Z 100)%num = of_Z 0.
Proof. num_eq. Qed.

(** The balance of the run of [unit_balance], as the simulator computes
    it. *)
Lemma unit_balance_run (g : rng) (t : nat) :
  dec_balance (of_Z 1) (of_Z 0) (of_Z 0) (of_Z 0) (of_Z 0) (of_Z 0) 1 1 g t 0
  = Fin (unit_balance g t).
Proof.
  induction t as [|t IH]; [reflexivity|].
  cbn [dec_balance unit_balance]. rewrite IH.
  unfold dec_return, dec_inflation, dec_withdrawal, noise_cell.
  change (dec_mean (of_Z 0)) with (of_Z 0).
  rewrite zero_by_12, zero_by_sqrt12, !noise_stdev_0.
  replace (of_Z 1 + of_Z 0 - of_Z 0)%num with (Fin 1) by (symmetry; num_eq).
  unfold advance, Num.sub, of_Z, dec. change (inject_Z 0) with 0%Q.
  cbn [Num.mul Num.add Num.opp]. f_equal.
  replace (t * 1 + 0 + 12 * 1 * 1 + 12 * 1 * 1)%nat with (24 + t)%nat by lia.
  unfold Qcminus. ring.
Qed.

End ZeroNoise.

(** ** Rounding to cents and one month of growth *)

Ltac qc2q :=
  unfold Qcle, Qclt, Qcdiv, Qcminus, Qcmult, Qcplus, Qcinv, Qcopp, Q2Qc in *;
  cbn [this] in *; rewrite ?Qred_correct in *.

Section Cents.

Local Open Scope Qc_scope.

Lemma rint_floor (q : Qc) : (Qnum q / Zpos (Qden q) <= rint q)%Z.
Proof.
  unfold rint.
  destruct (2 * (Qnum q mod Z.pos (Qden q)) ?= Z.pos (Qden q))%Z;
    [destruct (Z.even _)| |]; lia.
Qed.

Lemma rint_lower (q : Qc) (z : Z) :
  Q2Qc (inject_Z z) <= q -> (z <= rint q)%Z.
Proof.
  intros H. apply Z.le_trans with (2 := rint_floor q).
  unfold Qcle, Q2Qc in H. cbn [this] in H. rewrite Qred_correct in H.
  unfold Qle in H. cbn in H.
  apply Z.div_le_lower_bound; [reflexivity|].
  rewrite Z.mul_comm. now rewrite Z.mul_1_r in H.
Qed.

Lemma cents_div (w : Z) : Q2Qc (inject_Z w) / Q2Qc 100 = Q2Qc (w # 100).
Proof.
  apply Qc_is_canon. unfold Qcdiv, Qcmult, Qcinv, Q2Qc. cbn [this].
  rewrite !Qred_correct. unfold Qeq. cbn. lia.
Qed.

Lemma round_cents (q : Qc) :
  Num.round (Fin q) 2 = dec (rint (q * Q2Qc 100)) 100.
Proof.
  unfold Num.round, dec. change (10 ^ Z.of_nat 2)%Z with 100%Z.
  change (inject_Z 100) with 100%Q. f_equal. apply cents_div.
Qed.

Lemma leb_Fin (x y : Qc) : x <= y -> Num.leb (Fin x) (Fin y) = true.
Proof.
  intros H. unfold Num.leb.
  destruct (x ?= y) eqn:E; try reflexivity.
  apply Qcgt_alt in E. now apply Qcle_not_lt in H.
Qed.

Lemma leb_cents (z z' : Z) :
  (z <= z')%Z -> Num.leb (dec z 100) (dec z' 100) = true.
Proof.
  intros H. apply leb_Fin. unfold Qcle, Q2Qc. cbn [this].
  rewrite !Qred_correct. unfold Qle. cbn. lia.
Qed.

Lemma one_nonzero : Q2Qc 1 <> Q2Qc 0.
Proof. qc_discr. Qed.

Lemma growth1_finite (p rho k : Qc) :
  rho <> Q2Qc 0 ->
  growth1 (Fin p) (Fin rho) 1 (Fin k)
  = Num.round (Fin (p * (1 + rho) + k)) 2.
Proof.
  intros Hr. unfold growth1.
  change (of_Z (Z.of_nat 1)) with (Fin 1). change (of_Z 1) with (Fin 1).
  rewrite (div_Fin rho 1 one_nonzero).
  replace (rho / 1) with rho by (field; exact one_nonzero).
  cbn [Num.add Num.pow]. change (of_Z 1) with (Fin 1).
  unfold Num.sub. cbn [Num.mul Num.opp Num.add].
  rewrite div_Fin by assumption. cbn [Num.mul Num.add].
  do 2 f_equal. field. assumption.
Qed.

(** One month at a positive rate with a contribution that is not negative
    does not lower a balance of whole, non-negative cents. *)
Lemma growth1_cents (z : Z) (rho k : Qc) :
  (0 <= z)%Z -> Q2Qc 0 < rho -> Q2Qc 0 <= k ->
  exists z', (z <= z')%Z /\
    growth1 (dec z 100) (Fin rho) 1 (Fin k) = dec z' 100.
Proof.
  intros Hz Hr Hk.
  exists (rint ((Q2Qc (z # 100) * (1 + rho) + k) * Q2Qc 100)).
  split.
  - apply rint_lower. qc2q.
    assert (E : (inject_Z z == (z # 100) * 100)%Q).
    { unfold Qeq. cbn. lia. }
    assert (P : (0 <= z # 100)%Q) by (unfold Qle; cbn; lia).
    rewrite E. nra.
  - unfold dec at 1. rewrite growth1_finite, round_cents; [reflexivity|].
    intros E. rewrite E in Hr. now apply Qclt_not_eq in Hr.
Qed.

End Cents.

(** ** Accumulation without spread *)

Section SteadyAccumulation.

Local Open Scope Qc_scope.

Variable z : Z.
Variables r a m : Qc.
Variables ny ns : nat.
Variable g : rng.

Hypothesis capital_nonneg : (0 <= z)%Z.
Hypothesis return_pos : Q2Qc 0 < r.
Hypothesis raise_bound : Q2Qc (-100) <= a.
Hypothesis contribution_nonneg : Q2Qc 0 <= m.

Lemma steady_rate (j c : nat) :
  acc_rate (Fin r) (of_Z 0) ns g j c = Fin (r / Q2Qc 100 / Q2Qc 12).
Proof.
  unfold acc_rate, noise_cell.
  rewrite zero_pct_by_sqrt12, noise_stdev_0.
  unfold of_Z. change (inject_Z 100) with 100%Q.
  change (inject_Z 12) with 12%Q.
  now rewrite !div_Fin by qc_discr.
Qed.

Lemma steady_rate_pos : Q2Qc 0 < r / Q2Qc 100 / Q2Qc 12.
Proof.
  clear - return_pos. qc2q.
  change (/ 100)%Q with (1 # 100)%Q. change (/ 12)%Q with (1 # 12)%Q. lra.
Qed.

Lemma steady_raise (y c : nat) :
  acc_raise (Fin a) (of_Z 0) ny ns g y c = Fin (a / Q2Qc 100 + 1).
Proof.
  unfold acc_raise, noise_cell. rewrite zero_pct, noise_stdev_0.
  unfold of_Z. change (inject_Z 100) with 100%Q. change (inject_Z 1) with 1%Q.
  now rewrite div_Fin by qc_discr.
Qed.

Lemma steady_raise_nonneg : Q2Qc 0 <= a / Q2Qc 100 + 1.
Proof.
  clear - raise_bound. qc2q.
  change (/ 100)%Q with (1 # 100)%Q. lra.
Qed.

Lemma steady_contribution (y c : nat) :
  exists k, Q2Qc 0 <= k /\
    acc_contribution (Fin a) (of_Z 0) (Fin m) ny ns g y c = Fin k.
Proof.
  induction y as [|y [k [Hk IH]]].
  - now exists m.
  - exists (k * (a / Q2Qc 100 + 1)). split.
    + pose proof steady_raise_nonneg as Hf.
      revert Hk Hf. generalize (a / Q2Qc 100 + 1). intros f Hk Hf.
      qc2q. nra.
    + cbn [acc_contribution]. now rewrite IH, steady_raise.
Qed.

Lemma steady_cell (j c : nat) :
  exists zj, (0 <= zj)%Z /\
    acc_cell (dec z 100) (Fin r) (of_Z 0) (Fin a) (of_Z 0) (Fin m)
      ny ns g j c = dec zj 100.
Proof.
  induction j as [|j [zj [Hz IH]]].
  - now exists z.
  - destruct (steady_contribution (j / 12) c) as [k [Hk Ek]].
    destruct (growth1_cents zj (r / Q2Qc 100 / Q2Qc 12) k Hz
                steady_rate_pos Hk) as [z' [Hz' E]].
    exists z'. split; [lia|].
    cbn [acc_cell]. now rewrite IH, steady_rate, Ek.
Qed.

Lemma steady_step (j c : nat) :
  Num.leb
    (acc_cell (dec z 100) (Fin r) (of_Z 0) (Fin a) (of_Z 0) (Fin m)
       ny ns g j c)
    (acc_cell (dec z 100) (Fin r) (of_Z 0) (Fin a) (of_Z 0) (Fin m)
       ny ns g (S j) c) = true.
Proof.
  destruct (steady_cell j c) as [zj [Hz E]].
  destruct (steady_contribution (j / 12) c) as [k [Hk Ek]].
  destruct (growth1_cents zj (r / Q2Qc 100 / Q2Qc 12) k Hz
              steady_rate_pos Hk) as [z' [Hz' E']].
  cbn [acc_cell]. rewrite E, steady_rate, Ek, E'.
  now apply leb_cents.
Qed.

End SteadyAccumulation.

(** ** What the simulators return *)

Lemma shape_table (r c : nat) (cell : nat -> nat -> num) :
  shape (table r c cell) r c.
Proof.
  split; [apply length_tab|].
  unfold table, tab. apply Forall_map, Forall_forall.
  intros i _. apply length_tab.
Qed.

Lemma sims_matrix_returns (rows cols : Z) (mean stdev : num) (g : rng) :
  (0 <= rows)%Z -> (0 <= cols)%Z ->
  returns (sims_matrix rows cols mean stdev) g
    (table (Z.to_nat rows) (Z.to_nat cols)
           (noise_cell g (Z.to_nat cols) mean stdev)).
Proof.
  intros Hr Hc. eexists.
  rewrite <- (Z2Nat.id rows Hr) at 1. rewrite <- (Z2Nat.id cols Hc) at 1.
  apply sims_matrix_run.
Qed.

Lemma growth_simulation_returns
    (sc rm rs am asd mc : num) (n_years n_simulations : Z) (g : rng) :
  (0 <= n_years)%Z -> (0 <= n_simulations)%Z ->
  returns (growth_simulation sc rm rs am asd mc n_years n_simulations) g
    (table (12 * Z.to_nat n_years + 1) (Z.to_nat n_simulations)
       (acc_cell sc rm rs am asd mc
          (Z.to_nat n_years) (Z.to_nat n_simulations) g)).
Proof.
  intros Hy Hs. eexists.
  rewrite <- (Z2Nat.id n_years Hy) at 1.
  rewrite <- (Z2Nat.id n_simulations Hs) at 1.
  apply growth_simulation_run.
Qed.

Lemma withdrawal_simulation_returns
    (sc rm rs im isd mw : num) (n_years n_simulations : Z) (g : rng) :
  (0 <= n_years)%Z -> (0 <= n_simulations)%Z ->
  returns (withdrawal_simulation sc rm rs im isd mw n_years n_simulations) g
    (table (12 * Z.to_nat n_years + 1) (Z.to_nat n_simulations)
       (dec_cell sc rm rs im isd mw
          (Z.to_nat n_years) (Z.to_nat n_simulations) g)).
Proof.
  intros Hy Hs. eexists.
  rewrite <- (Z2Nat.id n_years Hy) at 1.
  rewrite <- (Z2Nat.id n_simulations Hs) at 1.
  apply withdrawal_simulation_run.
Qed.

(** ** Properties of the specification *)

(** C1, as the code has it.  For [n_years >= 0] and [n_simulations >= 0]:
    [growth_simulation] divides each of its four percentage inputs by 100
    whatever its size (the monthly rate is
    [return_mean / 100 / 12 + draw * (return_stdev / 100 / sqrt 12)], the
    raise factor [raise_mean / 100 + 1 + draw * (raise_stdev / 100)]);
    [withdrawal_simulation] divides the return mean and the inflation mean
    by 100 exactly when they are greater than 1 and uses the two standard
    deviations as given. *)
Theorem C1_percent_inputs
    (sc rm rs x xsd amount : num) (n_years n_simulations : Z) (g : rng) :
  (0 <= n_years)%Z -> (0 <= n_simulations)%Z ->
  let ny := Z.to_nat n_years in
  let ns := Z.to_nat n_simulations in
  let g1 := advance g (12 * ny * ns) in
  let g2 := advance g1 (12 * ny * ns) in
  let contribution := acc_contribution x xsd amount ny ns g in
  let mean v := if Num.gtb v (of_Z 1) then (v / of_Z 100)%num else v in
  (exists t,
     returns (growth_simulation sc rm rs x xsd amount
                n_years n_simulations) g t /\
     forall j c, (j < 12 * ny)%nat -> (c < ns)%nat ->
       cell_at t (S j) c
       = growth1 (cell_at t j c)
           (rm / of_Z 100 / of_Z 12
            + Fin (g (j * ns + c)%nat) * (rs / of_Z 100 / sqrt12))%num
           1 (contribution (j / 12)%nat c)) /\
  (forall c, contribution 0%nat c = amount) /\
  (forall y c,
     contribution (S y) c
     = (contribution y c
        * (x / of_Z 100 + of_Z 1
           + Fin (advance g ((12 * ny + 12) * ns) (y * ns + c)%nat)
             * (xsd / of_Z 100)))%num) /\
  (exists t,
     returns (withdrawal_simulation sc rm rs x xsd amount
                n_years n_simulations) g t /\
     forall j c, (j < 12 * ny)%nat -> (c < ns)%nat ->
       cell_at t (S j) c
       = to_millions
           (ruin_mask
              (dec_balance sc rm rs x xsd amount ny ns g j c
               * (of_Z 1
                  + (mean rm / of_Z 12
                     + Fin (g (j * ns + c)%nat) * (rs / sqrt12))
                  - (mean x / of_Z 12
                     + Fin (g1 (j * ns + c)%nat) * (xsd / sqrt12)))
               - (amount + Fin (g2 (j * ns + c)%nat) * dec 5 100))%num)).
Proof.
  intros Hy Hs. cbv zeta. repeat split.
  - eexists. split; [now apply growth_simulation_returns|].
    intros j c Hj Hc. now rewrite !cell_at_table by (lia || assumption).
  - eexists. split; [now apply withdrawal_simulation_returns|].
    intros j c Hj Hc. now rewrite !cell_at_table by (lia || assumption).
Qed.

Lemma C1_witness :
  exists t,
    returns (growth_simulation (of_Z 1200) (of_Z 1) (of_Z 0) (of_Z 0)
               (of_Z 0) (of_Z 0) 1 1) rng_zero t /\
    cell_at t 1 0
    = growth1 (cell_at t 0 0)
        (of_Z 1 / of_Z 100 / of_Z 12
         + Fin (rng_zero 0%nat) * (of_Z 0 / of_Z 100 / sqrt12))%num
        1 (of_Z 0).
Proof.
  destruct (C1_percent_inputs (of_Z 1200) (of_Z 1) (of_Z 0) (of_Z 0)
              (of_Z 0) (of_Z 0) 1 1 rng_zero) as [[t [R H]] _]; try lia.
  exists t. split; [exact R|]. apply (H 0%nat 0%nat); cbn; lia.
Defined.

(** C1 as stated fails.  A return mean of 1, not greater than 1, is not used
    unchanged by [growth_simulation]: 1200 grows to 1201.00 in a month, at
    the rate 0.01 / 12, where the rate 1 / 12 of the rule would give
    1300.00.  A return standard deviation of 12, greater than 1, is not
    divided by 100 by [withdrawal_simulation]: the run differs from the run
    with 0.12. *)
Lemma C1_counterexample :
  spec_normalize (of_Z 1) = of_Z 1 /\
  (exists t,
     returns (growth_simulation (of_Z 1200) (of_Z 1) (of_Z 0) (of_Z 0)
                (of_Z 0) (of_Z 0) 1 1) rng_zero t /\
     cell_at t 1 0 = of_Z 1201) /\
  growth1 (of_Z 1200) (spec_normalize (of_Z 1) / of_Z 12)%num 1 (of_Z 0)
  = of_Z 1300 /\
  spec_normalize (of_Z 12) = dec 12 100 /\
  (exists t1 t2,
     returns (withdrawal_simulation (of_Z 1000) (of_Z 0) (of_Z 12) (of_Z 0)
                (of_Z 0) (of_Z 0) 1 1) rng_ramp t1 /\
     returns (withdrawal_simulation (of_Z 1000) (of_Z 0) (dec 12 100)
                (of_Z 0) (of_Z 0) (of_Z 0) 1 1) rng_ramp t2 /\
     cell_at t1 2 0 <> cell_at t2 2 0).
Proof.
  split; [reflexivity|].
  split; [eexists; split; [eexists; vm_compute; reflexivity|num_eq]|].
  split; [num_eq|].
  split; [num_eq|].
  do 2 eexists.
  split; [eexists; vm_compute; reflexivity|].
  split; [eexists; vm_compute; reflexivity|].
  num_neq.
Qed.

(** C2, on the code.  With [rate = 0], [growth] returns NaN in every cell,
    whatever the principal, the contribution and [n]: the contribution term
    is computed as [0 / 0], where the claim asks for the defined value
    [principal + contribution * n].  Concretely [growth] of principal 100,
    rate 0, [n = 1] and contribution 10 gives NaN, not 110; and every row
    after the first of an accumulation run with a return of 0 percent and no
    spread is NaN. *)
Theorem C2_growth_rate_0_is_nan :
  (forall (k n : nat) (principal contribution : nat -> num),
     growth (tab k principal) (tab k (fun _ => of_Z 0)) n
            (tab k contribution)
     = tab k (fun _ => NaN)) /\
  growth [of_Z 100] [of_Z 0] 1 [of_Z 10] = [NaN] /\
  returns (growth_simulation (of_Z 10000) (of_Z 0) (of_Z 0) (of_Z 0)
             (of_Z 0) (of_Z 100) 1 1) rng_ramp
    ([of_Z 10000] :: repeat [NaN] 12).
Proof.
  split; [|split].
  - intros k n p c. rewrite growth_tab. apply tab_ext.
    intros j _. apply growth1_rate_0.
  - change (growth (tab 1 (fun _ => of_Z 100)) (tab 1 (fun _ => of_Z 0)) 1
                   (tab 1 (fun _ => of_Z 10)) = [NaN]).
    rewrite growth_tab. cbn [tab seq map]. now rewrite growth1_rate_0.
  - eexists. vm_compute. reflexivity.
Qed.

(** C3, as the code has it.  For [n_years >= 0] and [n_simulations >= 0],
    row 0 of the table of [growth_simulation] is [start_capital] in every
    column; row 0 of the table of [withdrawal_simulation] is the masked and
    rescaled start capital in every column: [start_capital / 1000000] when
    [start_capital] is not negative, NaN when it is negative. *)
Theorem C3_row_0
    (sc rm rs x xsd amount : num) (n_years n_simulations : Z) (g : rng) :
  (0 <= n_years)%Z -> (0 <= n_simulations)%Z ->
  (exists t,
     returns (growth_simulation sc rm rs x xsd amount
                n_years n_simulations) g t /\
     nth_error t 0 = Some (repeat sc (Z.to_nat n_simulations))) /\
  (exists t,
     returns (withdrawal_simulation sc rm rs x xsd amount
                n_years n_simulations) g t /\
     nth_error t 0
     = Some (repeat (to_millions (ruin_mask sc))
                    (Z.to_nat n_simulations))) /\
  (forall q, (Q2Qc 0 <= q)%Qc ->
     to_millions (ruin_mask (Fin q)) = Fin (q / Q2Qc 1000000)%Qc) /\
  (forall q, (q < Q2Qc 0)%Qc -> to_millions (ruin_mask (Fin q)) = NaN).
Proof.
  intros Hy Hs. repeat split.
  - eexists. split; [now apply growth_simulation_returns|].
    unfold table. rewrite nth_error_tab by lia. now rewrite repeat_tab.
  - eexists. split; [now apply withdrawal_simulation_returns|].
    unfold table. rewrite nth_error_tab by lia. now rewrite repeat_tab.
  - apply masked_nonneg.
  - apply masked_neg.
Qed.

Lemma C3_witness :
  (exists t,
     returns (growth_simulation (of_Z 10000) (of_Z 7) (of_Z 15) (of_Z 3)
                (of_Z 1) (of_Z 100) 1 2) rng_ramp t /\
     nth_error t 0 = Some (repeat (of_Z 10000) (Z.to_nat 2))) /\
  (exists t,
     returns (withdrawal_simulation (of_Z 10000) (of_Z 7) (of_Z 15) (of_Z 3)
                (of_Z 1) (of_Z 100) 1 2) rng_ramp t /\
     nth_error t 0
     = Some (repeat (to_millions (ruin_mask (of_Z 10000))) (Z.to_nat 2))) /\
  (forall q, (Q2Qc 0 <= q)%Qc ->
     to_millions (ruin_mask (Fin q)) = Fin (q / Q2Qc 1000000)%Qc) /\
  (forall q, (q < Q2Qc 0)%Qc -> to_millions (ruin_mask (Fin q)) = NaN).
Proof.
  apply (C3_row_0 (of_Z 10000) (of_Z 7) (of_Z 15) (of_Z 3) (of_Z 1)
           (of_Z 100) 1 2 rng_ramp); lia.
Defined.

(** C3 as stated fails for the decumulation table: with a start capital of
    1, row 0 holds 1/1000000, not 1. *)
Lemma C3_counterexample :
  exists t,
    returns (withdrawal_simulation (of_Z 1) (of_Z 0) (of_Z 0) (of_Z 0)
               (of_Z 0) (of_Z 0) 1 1) rng_zero t /\
    cell_at t 0 0 = dec 1 1000000 /\
    cell_at t 0 0 <> of_Z 1.
Proof.
  eexists. split; [eexists; vm_compute; reflexivity|].
  split; [num_eq|num_neq].
Qed.

(** C4.  For [n_years >= 1] and [n_simulations >= 1], with [returns_],
    [inflation] and [withdrawal] the three matrices [withdrawal_simulation]
    draws, the balance of every column follows
    [balance[t+1] = balance[t] * (1 + return[t] - inflation[t])
                    - withdrawal[t]]
    from [balance[0] = start_capital]; the returned cell [(t, c)] is NaN
    when [balance[t]] is negative and the balance otherwise (the recurrence
    goes on from the balance itself), divided by 1000000. *)
Theorem C4_decumulation_recurrence
    (sc rm rs im isd mw : num) (n_years n_simulations : Z) (g : rng) :
  (1 <= n_years)%Z -> (1 <= n_simulations)%Z ->
  let ny := Z.to_nat n_years in
  let ns := Z.to_nat n_simulations in
  let returns_ := dec_return rm rs ns g in
  let inflation := dec_inflation im isd ny ns g in
  let withdrawal := dec_withdrawal mw ny ns g in
  let balance := dec_balance sc rm rs im isd mw ny ns g in
  let g1 := advance g (12 * ny * ns) in
  let g2 := advance g1 (12 * ny * ns) in
  sims_matrix (12 * n_years) n_simulations
    (dec_mean rm / of_Z 12)%num (rs / sqrt12)%num g
  = Ok (table (12 * ny) ns returns_, g1) /\
  sims_matrix (12 * n_years) n_simulations
    (dec_mean im / of_Z 12)%num (isd / sqrt12)%num g1
  = Ok (table (12 * ny) ns inflation, g2) /\
  sims_matrix (12 * n_years) n_simulations mw (dec 5 100) g2
  = Ok (table (12 * ny) ns withdrawal, advance g2 (12 * ny * ns)) /\
  (forall c, balance 0%nat c = sc) /\
  (forall t c,
     balance (S t) c
     = (balance t c * (of_Z 1 + returns_ t c - inflation t c)
        - withdrawal t c)%num) /\
  exists tbl,
    returns (withdrawal_simulation sc rm rs im isd mw
               n_years n_simulations) g tbl /\
    forall t c, (t <= 12 * ny)%nat -> (c < ns)%nat ->
      cell_at tbl t c
      = ((if Num.ltb (balance t c) (of_Z 0) then NaN else balance t c)
         / of_Z 1000000)%num.
Proof.
  intros Hy Hs ny ns returns_ inflation withdrawal balance g1 g2.
  assert (E : (12 * n_years)%Z = Z.of_nat (12 * ny)) by lia.
  assert (E' : n_simulations = Z.of_nat ns) by lia.
  rewrite E. rewrite E' at 1 2 3.
  repeat split; try apply sims_matrix_run.
  eexists. split; [apply withdrawal_simulation_returns; lia|].
  intros t c Ht Hc. rewrite cell_at_table by (fold ny; lia || assumption).
  reflexivity.
Qed.

Lemma C4_witness :
  exists tbl,
    returns (withdrawal_simulation (of_Z 1000) (of_Z 7) (of_Z 15) (of_Z 3)
               (of_Z 1) (of_Z 400) 1 2) rng_ramp tbl /\
    forall t c, (t <= 12 * Z.to_nat 1)%nat -> (c < Z.to_nat 2)%nat ->
      cell_at tbl t c
      = ((if Num.ltb
               (dec_balance (of_Z 1000) (of_Z 7) (of_Z 15) (of_Z 3) (of_Z 1)
                  (of_Z 400) (Z.to_nat 1) (Z.to_nat 2) rng_ramp t c)
               (of_Z 0)
          then NaN
          else dec_balance (of_Z 1000) (of_Z 7) (of_Z 15) (of_Z 3) (of_Z 1)
                 (of_Z 400) (Z.to_nat 1) (Z.to_nat 2) rng_ramp t c)
         / of_Z 1000000)%num.
Proof.
  apply (C4_decumulation_recurrence (of_Z 1000) (of_Z 7) (of_Z 15) (of_Z 3)
           (of_Z 1) (of_Z 400) 1 2 rng_ramp); lia.
Defined.

(** C5. For [n_years >= 1] and [n_simulations >= 1], the tables returned by
    [growth_simulation] and by [withdrawal_simulation] both have
    [12 * n_years + 1] rows and [n_simulations] columns. *)
Theorem C5_table_shapes
    (sc rm rs x xsd amount : num) (n_years n_simulations : Z) (g : rng) :
  (1 <= n_years)%Z -> (1 <= n_simulations)%Z ->
  (exists t,
     returns (growth_simulation sc rm rs x xsd amount
                n_years n_simulations) g t /\
     shape t (Z.to_nat (12 * n_years + 1)) (Z.to_nat n_simulations)) /\
  (exists t,
     returns (withdrawal_simulation sc rm rs x xsd amount
                n_years n_simulations) g t /\
     shape t (Z.to_nat (12 * n_years + 1)) (Z.to_nat n_simulations)).
Proof.
  intros Hy Hs.
  replace (Z.to_nat (12 * n_years + 1))
    with (12 * Z.to_nat n_years + 1)%nat by lia.
  split; eexists; (split; [|apply shape_table]).
  - apply growth_simulation_returns; lia.
  - apply withdrawal_simulation_returns; lia.
Qed.

Lemma C5_witness :
  (exists t,
     returns (growth_simulation (of_Z 10000) (of_Z 7) (of_Z 15) (of_Z 3)
                (of_Z 1) (of_Z 100) 2 3) rng_ramp t /\
     shape t (Z.to_nat (12 * 2 + 1)) (Z.to_nat 3)) /\
  (exists t,
     returns (withdrawal_simulation (of_Z 10000) (of_Z 7) (of_Z 15) (of_Z 3)
                (of_Z 1) (of_Z 100) 2 3) rng_ramp t /\
     shape t (Z.to_nat (12 * 2 + 1)) (Z.to_nat 3)).
Proof.
  apply (C5_table_shapes (of_Z 10000) (of_Z 7) (of_Z 15) (of_Z 3) (of_Z 1)
           (of_Z 100) 2 3 rng_ramp); lia.
Defined.

(** C6, as the code has it.  There is no validation step and no
    [InvalidDimension] or [InvalidHorizon] error.  A negative [rows] or
    [cols] makes [sims_matrix] raise NumPy's [ValueError]; with [rows = 0] or
    [cols = 0] it returns an empty matrix.  A negative [n_years] or
    [n_simulations] makes each simulator raise [ValueError]; a simulator
    called with [n_years = 0] returns a table of one row, and called with
    [n_simulations = 0] a table of [12 * n_years + 1] rows of no column. *)
Theorem C6_dimensions :
  (forall rows cols mean stdev g,
     (rows < 0 \/ cols < 0)%Z ->
     raises (sims_matrix rows cols mean stdev) g ValueError) /\
  (forall rows cols mean stdev g,
     (0 <= rows)%Z -> (0 <= cols)%Z ->
     exists x,
       returns (sims_matrix rows cols mean stdev) g x /\
       shape x (Z.to_nat rows) (Z.to_nat cols)) /\
  (forall sc rm rs x xsd amount n_years n_simulations g,
     (n_years < 0 \/ n_simulations < 0)%Z ->
     raises (growth_simulation sc rm rs x xsd amount
               n_years n_simulations) g ValueError /\
     raises (withdrawal_simulation sc rm rs x xsd amount
               n_years n_simulations) g ValueError) /\
  (forall sc rm rs x xsd amount n_years n_simulations g,
     (0 <= n_years)%Z -> (0 <= n_simulations)%Z ->
     (exists t,
        returns (growth_simulation sc rm rs x xsd amount
                   n_years n_simulations) g t /\
        shape t (12 * Z.to_nat n_years + 1) (Z.to_nat n_simulations)) /\
     (exists t,
        returns (withdrawal_simulation sc rm rs x xsd amount
                   n_years n_simulations) g t /\
        shape t (12 * Z.to_nat n_years + 1) (Z.to_nat n_simulations))).
Proof.
  assert (N : forall rows cols, (rows < 0 \/ cols < 0)%Z ->
                neg_dim rows cols = true).
  { intros rows cols H. unfold neg_dim. apply orb_true_iff.
    destruct H; [left|right]; now apply Z.ltb_lt. }
  assert (S1 : forall rows cols mean stdev g,
             (rows < 0 \/ cols < 0)%Z ->
             sims_matrix rows cols mean stdev g = Raise ValueError).
  { intros rows cols mean stdev g H.
    unfold sims_matrix, bind, randn. now rewrite N. }
  split; [exact S1|].
  split.
  { intros rows cols mean stdev g Hr Hc. eexists.
    split; [now apply sims_matrix_returns|apply shape_table]. }
  split.
  - intros sc rm rs x xsd amount n_years n_simulations g H. split.
    + unfold raises, growth_simulation. unfold bind at 1.
      destruct (sims_matrix (12 * n_years + 12) n_simulations _ _ g)
        as [[m g1]|e] eqn:E1.
      * unfold bind at 1. now rewrite S1.
      * unfold sims_matrix, bind, randn, ret in E1.
        destruct (neg_dim (12 * n_years + 12) n_simulations);
          now inversion E1.
    + unfold raises, withdrawal_simulation. unfold bind at 1.
      rewrite S1; [reflexivity|lia].
  - intros sc rm rs x xsd amount n_years n_simulations g Hy Hs.
    split; eexists; (split; [|apply shape_table]).
    + now apply growth_simulation_returns.
    + now apply withdrawal_simulation_returns.
Qed.

Lemma C6_witness :
  raises (sims_matrix (-1) 3 (of_Z 0) (of_Z 1)) rng_ramp ValueError /\
  (exists x,
     returns (sims_matrix 0 3 (of_Z 0) (of_Z 1)) rng_ramp x /\
     shape x (Z.to_nat 0) (Z.to_nat 3)) /\
  raises (growth_simulation (of_Z 1) (of_Z 7) (of_Z 1) (of_Z 3) (of_Z 1)
            (of_Z 1) (-1) 3) rng_ramp ValueError /\
  (exists t,
     returns (withdrawal_simulation (of_Z 1) (of_Z 7) (of_Z 1) (of_Z 3)
                (of_Z 1) (of_Z 1) 0 3) rng_ramp t /\
     shape t (12 * Z.to_nat 0 + 1) (Z.to_nat 3)).
Proof.
  destruct C6_dimensions as [H1 [H2 [H3 H4]]].
  split; [apply H1; lia|].
  split; [apply H2; lia|].
  split; [apply H3; lia|].
  apply H4; lia.
Defined.

(** C6 as stated fails: no call below raises.  [sims_matrix] with
    [rows = 0] returns the empty matrix; [growth_simulation] with
    [n_years = 0] returns the one row of start capitals;
    [withdrawal_simulation] with [n_simulations = 0] returns 13 rows of no
    column. *)
Lemma C6_counterexample :
  returns (sims_matrix 0 3 (of_Z 0) (of_Z 1)) rng_ramp [] /\
  returns (growth_simulation (of_Z 500) (of_Z 7) (of_Z 15) (of_Z 3) (of_Z 1)
             (of_Z 100) 0 2) rng_ramp [[of_Z 500; of_Z 500]] /\
  returns (withdrawal_simulation (of_Z 500) (of_Z 7) (of_Z 15) (of_Z 3)
             (of_Z 1) (of_Z 100) 1 0) rng_ramp (repeat [] 13).
Proof.
  repeat split; eexists; vm_compute; reflexivity.
Qed.




(** C8, as the code has it.  The call with start capital 1, no return, no
    inflation, a withdrawal target of 0, one year and one simulation returns
    one column of 13 rows.  The withdrawal of a month is drawn around the
    target with the fixed standard deviation 0.05, so the balance after [t]
    months is 1 less 0.05 times the withdrawal draws so far, and the cell is
    that balance divided by 1000000, or NaN when the balance is negative.
    Every cell is 1/1000000 when the twelve withdrawal draws are 0. *)
Theorem C8_unit_scenario (g : rng) :
  returns (withdrawal_simulation (of_Z 1) (of_Z 0) (of_Z 0) (of_Z 0)
             (of_Z 0) (of_Z 0) 1 1) g
    (tab 13 (fun t => [to_millions (ruin_mask (Fin (unit_balance g t)))])) /\
  ((forall t, (t < 12)%nat -> g (24 + t)%nat = Q2Qc 0) ->
   returns (withdrawal_simulation (of_Z 1) (of_Z 0) (of_Z 0) (of_Z 0)
              (of_Z 0) (of_Z 0) 1 1) g
     (repeat [dec 1 1000000] 13)).
Proof.
  assert (R : returns (withdrawal_simulation (of_Z 1) (of_Z 0) (of_Z 0)
                         (of_Z 0) (of_Z 0) (of_Z 0) 1 1) g
                (tab 13 (fun t =>
                   [to_millions (ruin_mask (Fin (unit_balance g t)))]))).
  { destruct (withdrawal_simulation_returns (of_Z 1) (of_Z 0) (of_Z 0)
                (of_Z 0) (of_Z 0) (of_Z 0) 1 1 g) as [g' E]; try lia.
    exists g'. rewrite E. do 2 f_equal.
    change (Z.to_nat 1) with 1%nat. unfold table.
    change (12 * 1 + 1)%nat with 13%nat.
    apply tab_ext. intros t _. cbn [tab seq map]. unfold dec_cell.
    now rewrite unit_balance_run. }
  split; [exact R|].
  intros Hg. destruct R as [g' E]. exists g'. rewrite E. do 2 f_equal.
  rewrite repeat_tab. apply tab_ext. intros t Ht. f_equal.
  assert (U : forall k, (k <= 12)%nat -> unit_balance g k = Q2Qc 1).
  { induction k as [|k IH]; [reflexivity|]. intros Hk.
    cbn [unit_balance]. rewrite IH, Hg by lia. unfold Qcminus. ring. }
  rewrite U by lia. num_eq.
Qed.

Lemma C8_witness :
  returns (withdrawal_simulation (of_Z 1) (of_Z 0) (of_Z 0) (of_Z 0)
             (of_Z 0) (of_Z 0) 1 1) rng_zero
    (repeat [dec 1 1000000] 13).
Proof.
  apply (proj2 (C8_unit_scenario rng_zero)). intros t _. reflexivity.
Defined.

(** C8 as stated fails: on the generator whose draws are 0, 0.1, 0.2, ...
    the first withdrawal is 0.05 * 2.4 = 0.12, and the cell of month 1 is
    0.88/1000000, not 1/1000000. *)
Lemma C8_counterexample :
  exists t,
    returns (withdrawal_simulation (of_Z 1) (of_Z 0) (of_Z 0) (of_Z 0)
               (of_Z 0) (of_Z 0) 1 1) rng_ramp t /\
    cell_at t 1 0 = dec 88 100000000 /\
    cell_at t 1 0 <> dec 1 1000000.
Proof.
  eexists. split; [eexists; vm_compute; reflexivity|].
  split; [num_eq|num_neq].
Qed.

(** C9. For [rows >= 1] and [cols >= 1], [sims_matrix] called with
    [stdev = 0] returns a [rows] by [cols] matrix whose every cell is
    [mean]. *)
Theorem C9_sims_matrix_stdev_0 (rows cols : Z) (mean : num) (g : rng) :
  (1 <= rows)%Z -> (1 <= cols)%Z ->
  returns (sims_matrix rows cols mean (of_Z 0)) g
    (repeat (repeat mean (Z.to_nat cols)) (Z.to_nat rows)).
Proof.
  intros Hr Hc.
  destruct (sims_matrix_returns rows cols mean (of_Z 0) g) as [g' E];
    [lia | lia |].
  exists g'. rewrite E. do 2 f_equal.
  rewrite !repeat_tab. unfold table. apply tab_ext. intros i _.
  apply tab_ext. intros j _. apply noise_stdev_0.
Qed.

Lemma C9_witness :
  returns (sims_matrix 2 3 (dec 7 1200) (of_Z 0)) rng_ramp
    (repeat (repeat (dec 7 1200) 3) 2).
Proof. apply (C9_sims_matrix_stdev_0 2 3 (dec 7 1200) rng_ramp); lia. Defined.

(** C10.  In the table of [withdrawal_simulation] a cell is NaN when its
    balance is strictly negative; a balance of exactly 0 is returned as 0
    and a balance [q >= 0] as [q / 1000000].  The mask is applied after the
    whole recurrence: a negative balance [q] at month [t], returned as NaN,
    enters month [t + 1] as the number [q]. *)
Theorem C10_ruin_mask_is_per_cell
    (sc rm rs im isd mw : num) (n_years n_simulations : Z) (g : rng) :
  (0 <= n_years)%Z -> (0 <= n_simulations)%Z ->
  let ny := Z.to_nat n_years in
  let ns := Z.to_nat n_simulations in
  let balance := dec_balance sc rm rs im isd mw ny ns g in
  exists tbl,
    returns (withdrawal_simulation sc rm rs im isd mw
               n_years n_simulations) g tbl /\
    forall t c q, (t <= 12 * ny)%nat -> (c < ns)%nat ->
      balance t c = Fin q ->
      ((q < Q2Qc 0)%Qc -> cell_at tbl t c = NaN) /\
      (q = Q2Qc 0 -> cell_at tbl t c = Fin (Q2Qc 0)) /\
      ((Q2Qc 0 <= q)%Qc -> cell_at tbl t c = Fin (q / Q2Qc 1000000)%Qc) /\
      ((t < 12 * ny)%nat ->
       cell_at tbl (S t) c
       = to_millions
           (ruin_mask
              (Fin q
               * (of_Z 1 + dec_return rm rs ns g t c
                  - dec_inflation im isd ny ns g t c)
               - dec_withdrawal mw ny ns g t c)%num)).
Proof.
  intros Hy Hs. cbv zeta.
  eexists. split; [now apply withdrawal_simulation_returns|].
  intros t c q Ht Hc Hq.
  rewrite cell_at_table by (lia || assumption).
  unfold dec_cell. rewrite Hq.
  split; [apply masked_neg|].
  split; [intros ->; apply masked_zero|].
  split; [apply masked_nonneg|].
  intros Ht'. rewrite cell_at_table by (lia || assumption).
  unfold dec_cell. cbn [dec_balance]. now rewrite Hq.
Qed.

Lemma C10_witness :
  exists tbl,
    returns (withdrawal_simulation (dec 5 100) (of_Z 0) (of_Z 0) (of_Z 0)
               (of_Z 0) (of_Z 0) 1 1) rng_bounce tbl /\
    cell_at tbl 0 0 = dec 5 100000000 /\
    cell_at tbl 1 0 = NaN /\
    cell_at tbl 2 0 = dec 5 100000000.
Proof.
  destruct (C10_ruin_mask_is_per_cell (dec 5 100) (of_Z 0) (of_Z 0) (of_Z 0)
              (of_Z 0) (of_Z 0) 1 1 rng_bounce) as [tbl [R H]]; try lia.
  exists tbl. split; [exact R|].
  destruct (H 0%nat 0%nat (Q2Qc (5 # 100))) as [_ [_ [H0 _]]];
    try (cbn; lia); [reflexivity|].
  destruct (H 1%nat 0%nat (Q2Qc (-5 # 100))) as [H1 [_ [_ H2]]];
    try (cbn; lia); [num_eq|].
  split; [|split].
  - rewrite H0 by (intro E; vm_compute in E; discriminate E). num_eq.
  - apply H1. reflexivity.
  - rewrite H2 by (cbn; lia). num_eq.
Defined.

(** * Further properties of the code *)

(** ** [growth] *)

Section GrowthFacts.

Local Open Scope Qc_scope.

Lemma periods_nonzero (n : nat) :
  (1 <= n)%nat -> Q2Qc (inject_Z (Z.of_nat n)) <> Q2Qc 0.
Proof.
  intros Hn E. apply Q2Qc_eq_iff in E. unfold Qeq in E. cbn in E. lia.
Qed.

Lemma Qcdiv_nonzero (x y : Qc) :
  x <> Q2Qc 0 -> y <> Q2Qc 0 -> x / y <> Q2Qc 0.
Proof.
  intros Hx Hy E. apply Hx.
  replace x with (x / y * y) by (field; exact Hy).
  rewrite E. ring.
Qed.

Lemma growth1_NaN (rate : num) (n : nat) (contribution : num) :
  growth1 NaN rate n contribution = NaN.
Proof. reflexivity. Qed.

(** The documented formula, for a rate that is not 0 and [n >= 1]. *)
Lemma growth1_formula (p r c : Qc) (n : nat) :
  (1 <= n)%nat -> r <> Q2Qc 0 ->
  let rn := r / Q2Qc (inject_Z (Z.of_nat n)) in
  growth1 (Fin p) (Fin r) n (Fin c)
  = Num.round
      (Fin (p * (1 + rn) ^ n + c * (((1 + rn) ^ n - 1) / rn))) 2.
Proof.
  intros Hn Hr rn. unfold growth1, of_Z.
  rewrite (div_Fin r _ (periods_nonzero n Hn)). fold rn.
  change (inject_Z 1) with 1%Q. cbn [Num.add].
  rewrite pow_Fin. unfold Num.sub. cbn [Num.opp Num.add Num.mul].
  rewrite div_Fin by (apply Qcdiv_nonzero; [assumption|now apply periods_nonzero]).
  reflexivity.
Qed.

End GrowthFacts.

Lemma nth_error_zip_with {A B C : Type} (f : A -> B -> C)
    (l1 : list A) (l2 : list B) (j : nat) (a : A) (b : B) :
  nth_error l1 j = Some a -> nth_error l2 j = Some b ->
  nth_error (zip_with f l1 l2) j = Some (f a b).
Proof.
  revert l2 j. induction l1 as [|x l1 IH]; intros [|y l2] [|j] H1 H2;
    cbn in *; try discriminate.
  - now inversion H1; inversion H2.
  - now apply IH.
Qed.

Lemma nth_error_map_some {A B : Type} (f : A -> B) (l : list A) (j : nat)
    (a : A) :
  nth_error l j = Some a -> nth_error (map f l) j = Some (f a).
Proof. intros H. now rewrite nth_error_map, H. Qed.

(** [growth] works cell by cell. *)
Lemma growth_cell (principal rate contribution : row) (n j : nat)
    (p r c : num) :
  nth_error principal j = Some p -> nth_error rate j = Some r ->
  nth_error contribution j = Some c ->
  nth_error (growth principal rate n contribution) j
  = Some (growth1 p r n c).
Proof.
  intros Hp Hr Hc. unfold growth, growth1.
  rewrite Nat.mul_1_r.
  set (n' := of_Z (Z.of_nat n)).
  assert (Hd : nth_error (vdivs rate n') j = Some (r / n')%num)
    by exact (nth_error_map_some (fun x => x / n')%num rate j r Hr).
  assert (Hs : nth_error (sadd (of_Z 1) (vdivs rate n')) j
               = Some (of_Z 1 + r / n')%num)
    by exact (nth_error_map_some (Num.add (of_Z 1)) _ j _ Hd).
  assert (Hf : nth_error (vpow (sadd (of_Z 1) (vdivs rate n')) n) j
               = Some (Num.pow (of_Z 1 + r / n') n))
    by exact (nth_error_map_some (fun x => Num.pow x n) _ j _ Hs).
  assert (Hm : nth_error (vsubs (vpow (sadd (of_Z 1) (vdivs rate n')) n)
                                (of_Z 1)) j
               = Some (Num.pow (of_Z 1 + r / n') n - of_Z 1)%num)
    by exact (nth_error_map_some (fun x => x - of_Z 1)%num _ j _ Hf).
  unfold np_round.
  apply (nth_error_map_some (fun x => Num.round x 2)).
  apply (nth_error_zip_with Num.add).
  - now apply (nth_error_zip_with Num.mul).
  - apply (nth_error_zip_with Num.mul); [assumption|].
    now apply (nth_error_zip_with Num.div).
Qed.



(** X2.  With [n = 0] and a finite rate that is not 0, [growth] raises
    nothing and ignores the contribution: [rate / 0] is an infinity,
    [(1 + rate / 0) ** 0] is 1, and the cell is the principal rounded to
    cents. *)
Theorem X2_growth_no_period
    (principal rate contribution : row) (j : nat) (p r c : Qc) :
  length rate = length principal ->
  length contribution = length principal ->
  nth_error principal j = Some (Fin p) ->
  nth_error rate j = Some (Fin r) ->
  nth_error contribution j = Some (Fin c) ->
  r <> Q2Qc 0 ->
  nth j (growth principal rate 0 contribution) NaN = Num.round (Fin p) 2.
Proof.
  intros _ _ Hp Hr Hc H. apply nth_error_nth.
  rewrite (growth_cell _ _ _ 0 j _ _ _ Hp Hr Hc). f_equal.
  unfold growth1, of_Z. cbn [Z.of_nat Num.div].
  change (inject_Z 0) with 0%Q. change (inject_Z 1) with 1%Q.
  destruct (Qc_eq_dec (Q2Qc 0) (Q2Qc 0)) as [_|N]; [|now elim N].
  assert (S : (r ?= Q2Qc 0)%Qc = Lt \/ (r ?= Q2Qc 0)%Qc = Gt).
  { destruct (r ?= Q2Qc 0)%Qc eqn:E; auto.
    apply Qceq_alt in E. contradiction. }
  destruct S as [-> | ->];
    cbn [inf_of Num.add Num.pow Num.mul Num.sub Num.opp Num.div];
    unfold of_Z; change (inject_Z 1) with 1%Q;
    cbn [Num.add Num.mul Num.sub Num.opp Num.div];
    do 2 f_equal; ring.
Qed.

Lemma X2_witness :
  nth 0 (growth [dec 1234567 1000] [dec 6 100] 0 [of_Z 50]) NaN
  = Num.round (dec 1234567 1000) 2.
Proof.
  apply (X2_growth_no_period [dec 1234567 1000] [dec 6 100] [of_Z 50] 0
           (Q2Qc (1234567 # 1000)) (Q2Qc (6 # 100)) (Q2Qc 50));
    try reflexivity.
  intro E. apply (f_equal this) in E. vm_compute in E. discriminate E.
Defined.

(** ** [growth_simulation] on finite inputs *)

Section FiniteAccumulation.

Local Open Scope Qc_scope.

Variables sc rm rs am asd mc : Qc.
Variables ny ns : nat.
Variable g : rng.

Local Abbreviation cell :=
  (acc_cell (Fin sc) (Fin rm) (Fin rs) (Fin am) (Fin asd) (Fin mc) ny ns g).
Local Abbreviation rho := (fin_rate rm rs ns g).
Local Abbreviation paid := (fin_contribution am asd mc ny ns g).

Lemma hundred_nonzero : Q2Qc 100 <> Q2Qc 0.
Proof. qc_discr. Qed.

Lemma twelve_nonzero : Q2Qc 12 <> Q2Qc 0.
Proof. qc_discr. Qed.

Lemma sqrt12_q_nonzero : sqrt12_q <> Q2Qc 0.
Proof. qc_discr. Qed.

Lemma acc_rate_fin (j c : nat) :
  acc_rate (Fin rm) (Fin rs) ns g j c = Fin (rho j c).
Proof.
  unfold acc_rate, noise_cell, fin_rate, of_Z, sqrt12, dec.
  change (inject_Z 100) with 100%Q. change (inject_Z 12) with 12%Q.
  fold sqrt12_q.
  now rewrite !(div_Fin _ _ hundred_nonzero), (div_Fin _ _ twelve_nonzero),
    (div_Fin _ _ sqrt12_q_nonzero).
Qed.

Lemma acc_raise_fin (y c : nat) :
  acc_raise (Fin am) (Fin asd) ny ns g y c
  = Fin (fin_raise am asd ny ns g y c).
Proof.
  unfold acc_raise, noise_cell, fin_raise, of_Z.
  change (inject_Z 100) with 100%Q. change (inject_Z 1) with 1%Q.
  now rewrite !(div_Fin _ _ hundred_nonzero).
Qed.

Lemma acc_contribution_fin (y c : nat) :
  acc_contribution (Fin am) (Fin asd) (Fin mc) ny ns g y c = Fin (paid y c).
Proof.
  induction y as [|y IH]; [reflexivity|].
  cbn [acc_contribution fin_contribution]. now rewrite IH, acc_raise_fin.
Qed.

(** One month of the accumulation, from a finite balance. *)
Lemma accumulation_month (j c : nat) (p : Qc) :
  cell j c = Fin p ->
  (rho j c = Q2Qc 0 -> cell (S j) c = NaN) /\
  (rho j c <> Q2Qc 0 ->
   cell (S j) c
   = Num.round (Fin (p * (1 + rho j c) + paid (j / 12) c)) 2).
Proof.
  intros E. cbn [acc_cell].
  rewrite E, acc_rate_fin, acc_contribution_fin. split.
  - intros ->. apply growth1_rate_0.
  - apply growth1_finite.
Qed.

Lemma zero_rate_dec (c j : nat) :
  (exists i, (i < j)%nat /\ rho i c = Q2Qc 0) \/
  (forall i, (i < j)%nat -> rho i c <> Q2Qc 0).
Proof.
  induction j as [|j [[i [Hi E]]|IH]].
  - right. intros i Hi. lia.
  - left. exists i. split; [lia|assumption].
  - destruct (Qc_eq_dec (rho j c) (Q2Qc 0)) as [E|N].
    + left. exists j. split; [lia|assumption].
    + right. intros i Hi.
      destruct (Nat.eq_dec i j) as [->|D]; [assumption|apply IH; lia].
Qed.

Lemma column_poisoned (c j : nat) :
  (exists i, (i < j)%nat /\ rho i c = Q2Qc 0) -> cell j c = NaN.
Proof.
  induction j as [|j IH]; intros [i [Hi E]]; [lia|].
  cbn [acc_cell].
  destruct (Nat.eq_dec i j) as [->|D].
  - rewrite acc_rate_fin, E. apply growth1_rate_0.
  - rewrite IH by (exists i; split; [lia|assumption]). reflexivity.
Qed.

Lemma column_sound (c j : nat) :
  (forall i, (i < j)%nat -> rho i c <> Q2Qc 0) ->
  exists q, cell j c = Fin q /\
            ((1 <= j)%nat -> exists z, q = Q2Qc (z # 100)).
Proof.
  induction j as [|j IH]; intros H.
  - exists sc. split; [reflexivity|lia].
  - destruct IH as [p [E _]]; [intros i Hi; apply H; lia|].
    destruct (accumulation_month j c p E) as [_ F].
    rewrite F, round_cents by (apply H; lia).
    eexists. split; [reflexivity|]. intros _. now eexists.
Qed.

End FiniteAccumulation.





(** ** Which draws and parameters a run of [growth_simulation] uses *)

Lemma acc_cell_first_year
    (sc rm rs am asd am' asd' mc : num) (ny ny' ns : nat) (g : rng)
    (j c : nat) :
  (j <= 12)%nat ->
  acc_cell sc rm rs am asd mc ny ns g j c
  = acc_cell sc rm rs am' asd' mc ny' ns g j c.
Proof.
  induction j as [|j IH]; intros Hj; [reflexivity|].
  cbn [acc_cell]. rewrite (Nat.div_small j 12) by lia.
  cbn [acc_contribution]. now rewrite IH by lia.
Qed.

Section UsedDraws.

Variables sc rm rs am asd mc : num.
Variables ny ns : nat.
Variables g g' : rng.

Hypothesis same_returns :
  forall k, (k < 12 * ny * ns)%nat -> g k = g' k.
Hypothesis same_raises :
  forall k, (k < (ny - 1) * ns)%nat ->
    g (k + (12 * ny + 12) * ns)%nat = g' (k + (12 * ny + 12) * ns)%nat.

Lemma acc_rate_used (j c : nat) :
  (j < 12 * ny)%nat -> (c < ns)%nat ->
  acc_rate rm rs ns g j c = acc_rate rm rs ns g' j c.
Proof.
  intros Hj Hc. unfold acc_rate, noise_cell.
  rewrite same_returns; [reflexivity|nia].
Qed.

Lemma acc_contribution_used (y c : nat) :
  (y < ny)%nat -> (c < ns)%nat ->
  acc_contribution am asd mc ny ns g y c
  = acc_contribution am asd mc ny ns g' y c.
Proof.
  intros Hy Hc. induction y as [|y IH]; [reflexivity|].
  cbn [acc_contribution]. rewrite IH by lia.
  unfold acc_raise, noise_cell, advance.
  rewrite same_raises; [reflexivity|nia].
Qed.

Lemma acc_cell_used (j c : nat) :
  (j <= 12 * ny)%nat -> (c < ns)%nat ->
  acc_cell sc rm rs am asd mc ny ns g j c
  = acc_cell sc rm rs am asd mc ny ns g' j c.
Proof.
  intros Hj Hc. induction j as [|j IH]; [reflexivity|].
  cbn [acc_cell].
  assert (Hy : (j / 12 < ny)%nat)
    by (apply Nat.Div0.div_lt_upper_bound; lia).
  rewrite IH by lia.
  rewrite acc_rate_used by (lia || assumption).
  now rewrite acc_contribution_used by assumption.
Qed.

End UsedDraws.

(** X5.  The first thirteen rows of the accumulation table (months 0 to 12)
    depend neither on the raise mean, nor on the raise standard deviation,
    nor on the horizon: two runs on the same generator with the same start
    capital, return parameters, contribution and number of simulations
    agree on them, whatever their raises and their [n_years >= 1].  The
    first raise reaches the contribution of month 13. *)
Theorem X5_first_year_ignores_raises
    (sc rm rs am asd am' asd' mc : num)
    (n_years n_years' n_simulations : Z) (g : rng) :
  (1 <= n_years)%Z -> (1 <= n_years')%Z -> (0 <= n_simulations)%Z ->
  exists t t',
    returns (growth_simulation sc rm rs am asd mc
               n_years n_simulations) g t /\
    returns (growth_simulation sc rm rs am' asd' mc
               n_years' n_simulations) g t' /\
    firstn 13 t = firstn 13 t'.
Proof.
  intros Hy Hy' Hs. do 2 eexists.
  split; [apply growth_simulation_returns; lia|].
  split; [apply growth_simulation_returns; lia|].
  unfold table. rewrite !firstn_tab by lia.
  apply tab_ext. intros j Hj. apply tab_ext. intros c _.
  apply acc_cell_first_year. lia.
Qed.

Lemma X5_witness :
  exists t t',
    returns (growth_simulation (of_Z 10000) (of_Z 7) (of_Z 15) (of_Z 3)
               (of_Z 1) (of_Z 100) 1 2) rng_ramp t /\
    returns (growth_simulation (of_Z 10000) (of_Z 7) (of_Z 15) (of_Z (-50))
               (of_Z 20) (of_Z 100) 3 2) rng_ramp t' /\
    firstn 13 t = firstn 13 t'.
Proof.
  apply (X5_first_year_ignores_raises (of_Z 10000) (of_Z 7) (of_Z 15)
           (of_Z 3) (of_Z 1) (of_Z (-50)) (of_Z 20) (of_Z 100) 1 3 2
           rng_ramp); lia.
Defined.

(** X6.  Of the [(12 * n_years + 12) * n_simulations] return draws of
    [growth_simulation] only the first [12 * n_years * n_simulations] reach
    the returned table, and of the [n_years * n_simulations] raise draws only
    the first [(n_years - 1) * n_simulations]: two generators that agree on
    those draws give the same table.  The last twelve rows of returns and the
    raise of the last year are drawn and dropped. *)
Theorem X6_unused_draws
    (sc rm rs am asd mc : num) (n_years n_simulations : Z) (g g' : rng) :
  (0 <= n_years)%Z -> (0 <= n_simulations)%Z ->
  let ny := Z.to_nat n_years in
  let ns := Z.to_nat n_simulations in
  (forall k, (k < 12 * ny * ns)%nat -> g k = g' k) ->
  (forall k, (k < (ny - 1) * ns)%nat ->
     g (k + (12 * ny + 12) * ns)%nat = g' (k + (12 * ny + 12) * ns)%nat) ->
  exists t,
    returns (growth_simulation sc rm rs am asd mc
               n_years n_simulations) g t /\
    returns (growth_simulation sc rm rs am asd mc
               n_years n_simulations) g' t.
Proof.
  intros Hy Hs ny ns H1 H2. eexists.
  split; [now apply growth_simulation_returns|].
  destruct (growth_simulation_returns sc rm rs am asd mc n_years
              n_simulations g' Hy Hs) as [g2 E].
  exists g2. rewrite E. do 2 f_equal. fold ny ns. unfold table.
  apply tab_ext. intros j Hj. apply tab_ext. intros c Hc.
  symmetry. apply acc_cell_used; try assumption. lia.
Qed.

Lemma X6_witness :
  exists t,
    returns (growth_simulation (of_Z 10000) (of_Z 7) (of_Z 15) (of_Z 3)
               (of_Z 1) (of_Z 100) 1 1) rng_zero t /\
    returns (growth_simulation (of_Z 10000) (of_Z 7) (of_Z 15) (of_Z 3)
               (of_Z 1) (of_Z 100) 1 1)
      (fun k => if (k <? 12)%nat then Q2Qc 0 else Q2Qc 5) t.
Proof.
  apply (X6_unused_draws (of_Z 10000) (of_Z 7) (of_Z 15) (of_Z 3) (of_Z 1)
           (of_Z 100) 1 1 rng_zero
           (fun k => if (k <? 12)%nat then Q2Qc 0 else Q2Qc 5)); try lia.
  intros k Hk. unfold rng_zero.
  destruct (Nat.ltb_spec k 12) as [_|N]; [reflexivity|].
  cbn in Hk. lia.
Defined.

Section Schedule.

Local Open Scope Qc_scope.

Lemma fin_contribution_steady (am mc : Qc) (ny ns : nat) (g : rng)
    (y c : nat) :
  fin_contribution am (Q2Qc 0) mc ny ns g y c
  = mc * (am / Q2Qc 100 + Q2Qc 1) ^ y.
Proof.
  induction y as [|y IH]; cbn [fin_contribution Qcpower]; [ring|].
  rewrite IH. unfold fin_raise, Qcdiv. ring.
Qed.

End Schedule.



(** X8.  A run of [growth_simulation] with [n_years >= 0] and
    [n_simulations >= 0] takes [(13 * n_years + 12) * n_simulations] draws
    from the generator, and a run of [withdrawal_simulation]
    [36 * n_years * n_simulations]: the generator left behind is the one
    given, advanced by that many draws. *)
Theorem X8_draws_consumed
    (sc rm rs x xsd amount : num) (n_years n_simulations : Z) (g : rng) :
  (0 <= n_years)%Z -> (0 <= n_simulations)%Z ->
  let ny := Z.to_nat n_years in
  let ns := Z.to_nat n_simulations in
  (exists t g',
     growth_simulation sc rm rs x xsd amount n_years n_simulations g
     = Ok (t, g') /\
     forall i, g' i = g (i + (13 * ny + 12) * ns)%nat) /\
  (exists t g',
     withdrawal_simulation sc rm rs x xsd amount n_years n_simulations g
     = Ok (t, g') /\
     forall i, g' i = g (i + 36 * ny * ns)%nat).
Proof.
  intros Hy Hs ny ns. split.
  - do 2 eexists. split.
    + rewrite <- (Z2Nat.id n_years Hy) at 1.
      rewrite <- (Z2Nat.id n_simulations Hs) at 1.
      apply growth_simulation_run.
    + intros i. unfold advance. fold ny ns. f_equal. nia.
  - do 2 eexists. split.
    + rewrite <- (Z2Nat.id n_years Hy) at 1.
      rewrite <- (Z2Nat.id n_simulations Hs) at 1.
      apply withdrawal_simulation_run.
    + intros i. unfold advance. fold ny ns. f_equal. nia.
Qed.

Lemma X8_witness :
  exists t g',
    growth_simulation (of_Z 10000) (of_Z 7) (of_Z 15) (of_Z 3) (of_Z 1)
      (of_Z 100) 2 3 rng_ramp = Ok (t, g') /\
    forall i, g' i = rng_ramp (i + (13 * Z.to_nat 2 + 12) * Z.to_nat 3)%nat.
Proof.
  apply (X8_draws_consumed (of_Z 10000) (of_Z 7) (of_Z 15) (of_Z 3) (of_Z 1)
           (of_Z 100) 2 3 rng_ramp); lia.
Defined.

(** ** [withdrawal_simulation] *)

Section DecumulationFacts.

Local Open Scope Qc_scope.

Lemma never_negative (v : num) :
  to_millions (ruin_mask v) = NaN \/
  Num.leb (of_Z 0) (to_millions (ruin_mask v)) = true.
Proof.
  destruct v as [q| | |].
  - destruct (Qclt_le_dec q (Q2Qc 0)) as [N|P].
    + left. now apply masked_neg.
    + right. rewrite masked_nonneg by assumption.
      apply leb_Fin. qc2q. change (inject_Z 0) with 0%Q.
      change (/ 1000000)%Q with (1 # 1000000)%Q. lra.
  - right. reflexivity.
  - left. reflexivity.
  - left. reflexivity.
Qed.

Lemma dec_mean_percent (x : Qc) :
  Q2Qc 1 < x -> dec_mean (Fin x) = Fin (x / Q2Qc 100).
Proof.
  intros H. unfold dec_mean, Num.gtb, Num.ltb, of_Z.
  change (inject_Z 1) with 1%Q. change (inject_Z 100) with 100%Q.
  rewrite (proj1 (Qclt_alt _ _) H). apply div_Fin. qc_discr.
Qed.

Lemma dec_mean_fraction (x : Qc) :
  x <= Q2Qc 1 -> dec_mean (Fin x) = Fin x.
Proof.
  intros H. unfold dec_mean, Num.gtb, Num.ltb, of_Z.
  change (inject_Z 1) with 1%Q.
  destruct (Q2Qc 1 ?= x) eqn:E; try reflexivity.
  apply Qclt_alt in E. now apply Qcle_not_lt in H.
Qed.

Lemma dec_mean_twice (x : Qc) :
  Q2Qc 1 < x -> x <= Q2Qc 100 ->
  dec_mean (Fin x) = dec_mean (Fin (x / Q2Qc 100)).
Proof.
  intros H1 H2. rewrite dec_mean_percent by assumption.
  symmetry. apply dec_mean_fraction.
  clear H1. qc2q. change (/ 100)%Q with (1 # 100)%Q. lra.
Qed.

End DecumulationFacts.

(** X9.  No cell of the table of [withdrawal_simulation] is a negative
    number, whatever the inputs and the draws: a cell is NaN or is greater
    than or equal to 0. *)
Theorem X9_decumulation_never_negative
    (sc rm rs im isd mw : num) (n_years n_simulations : Z) (g : rng) :
  (0 <= n_years)%Z -> (0 <= n_simulations)%Z ->
  exists t,
    returns (withdrawal_simulation sc rm rs im isd mw
               n_years n_simulations) g t /\
    forall j c,
      (j <= 12 * Z.to_nat n_years)%nat -> (c < Z.to_nat n_simulations)%nat ->
      cell_at t j c = NaN \/ Num.leb (of_Z 0) (cell_at t j c) = true.
Proof.
  intros Hy Hs.
  eexists. split; [now apply withdrawal_simulation_returns|].
  intros j c Hj Hc. rewrite cell_at_table by (lia || assumption).
  apply never_negative.
Qed.

Lemma X9_witness :
  exists t,
    returns (withdrawal_simulation (of_Z 1000) (of_Z 7) (of_Z 15) (of_Z 3)
               (of_Z 1) (of_Z 400) 1 2) rng_ramp t /\
    forall j c,
      (j <= 12 * Z.to_nat 1)%nat -> (c < Z.to_nat 2)%nat ->
      cell_at t j c = NaN \/ Num.leb (of_Z 0) (cell_at t j c) = true.
Proof.
  apply (X9_decumulation_never_negative (of_Z 1000) (of_Z 7) (of_Z 15)
           (of_Z 3) (of_Z 1) (of_Z 400) 1 2 rng_ramp); lia.
Defined.

(** X10.  [withdrawal_simulation] reads a return mean or an inflation mean
    [x] with [1 < x <= 100] as a percentage: the run is the run with the
    fraction [x / 100] in its place. *)
Theorem X10_percent_or_fraction
    (sc rm rs im isd mw : num) (x : Qc) (n_years n_simulations : Z)
    (g : rng) :
  (Q2Qc 1 < x)%Qc -> (x <= Q2Qc 100)%Qc ->
  withdrawal_simulation sc (Fin x) rs im isd mw n_years n_simulations g
  = withdrawal_simulation sc (Fin (x / Q2Qc 100)%Qc) rs im isd mw
      n_years n_simulations g /\
  withdrawal_simulation sc rm rs (Fin x) isd mw n_years n_simulations g
  = withdrawal_simulation sc rm rs (Fin (x / Q2Qc 100)%Qc) isd mw
      n_years n_simulations g.
Proof.
  intros H1 H2. pose proof (dec_mean_twice x H1 H2) as E.
  unfold withdrawal_simulation. split.
  - fold (dec_mean (Fin x)). fold (dec_mean (Fin (x / Q2Qc 100)%Qc)).
    now rewrite E.
  - fold (dec_mean (Fin x)). fold (dec_mean (Fin (x / Q2Qc 100)%Qc)).
    now rewrite E.
Qed.

Lemma X10_witness :
  withdrawal_simulation (of_Z 1000000) (Fin (Q2Qc 7)) (dec 15 100)
    (of_Z 3) (dec 1 100) (of_Z 4000) 1 2 rng_ramp
  = withdrawal_simulation (of_Z 1000000) (Fin (Q2Qc 7 / Q2Qc 100)%Qc)
      (dec 15 100) (of_Z 3) (dec 1 100) (of_Z 4000) 1 2 rng_ramp.
Proof.
  apply (X10_percent_or_fraction (of_Z 1000000) (of_Z 0) (dec 15 100)
           (of_Z 3) (dec 1 100) (of_Z 4000) (Q2Qc 7) 1 2 rng_ramp);
    vm_compute; congruence.
Defined.

(** ** The series of [withdrawal_plot] and [growth_plot] *)

Section PercentFacts.

Local Open Scope Qc_scope.

(** A cell of the decumulation table is above 0 exactly when its balance
    is. *)
Lemma gtb_masked (v : num) :
  Num.gtb (to_millions (ruin_mask v)) (of_Z 0) = Num.gtb v (of_Z 0).
Proof.
  destruct v as [q| | |]; try reflexivity.
  destruct (Qclt_le_dec q (Q2Qc 0)) as [N|P].
  - rewrite masked_neg by assumption.
    unfold Num.gtb, Num.ltb, of_Z. change (inject_Z 0) with 0%Q.
    destruct (Q2Qc 0 ?= q) eqn:E; try reflexivity.
    apply Qclt_alt in E. apply Qclt_not_le in N. elim N.
    now apply Qclt_le_weak.
  - rewrite masked_nonneg by assumption.
    unfold Num.gtb, Num.ltb, of_Z. change (inject_Z 0) with 0%Q.
    destruct (Q2Qc 0 ?= q) eqn:E.
    + apply Qceq_alt in E. subst q.
      replace (Q2Qc 0 / Q2Qc 1000000) with (Q2Qc 0)
        by (unfold Qcdiv; ring).
      now rewrite Qccompare_refl.
    + apply Qclt_alt in E.
      assert (L : Q2Qc 0 < q / Q2Qc 1000000).
      { clear P. qc2q. change (/ 1000000)%Q with (1 # 1000000)%Q. lra. }
      now rewrite (proj1 (Qclt_alt _ _) L).
    + apply Qcgt_alt in E. now apply Qcle_not_lt in P.
Qed.

Lemma percent_bounds (k c : nat) :
  (k <= c)%nat -> (1 <= c)%nat ->
  exists q,
    (of_Z (Z.of_nat k) / of_Z (Z.of_nat c) * of_Z 100)%num = Fin q /\
    Q2Qc 0 <= q /\ q <= Q2Qc 100.
Proof.
  intros Hk Hc. unfold of_Z.
  rewrite div_Fin by now apply periods_nonzero.
  cbn [Num.mul]. eexists. split; [reflexivity|].
  change (inject_Z 100) with 100%Q.
  assert (A : (0 <= inject_Z (Z.of_nat k))%Q)
    by (unfold Qle; cbn; lia).
  assert (B : (inject_Z (Z.of_nat k) <= inject_Z (Z.of_nat c))%Q)
    by (rewrite <- Zle_Qle; lia).
  assert (C : (0 < inject_Z (Z.of_nat c))%Q)
    by (unfold Qlt; cbn; lia).
  revert A B C. generalize (inject_Z (Z.of_nat k)) (inject_Z (Z.of_nat c)).
  intros a b A B C. qc2q.
  assert (L : (0 <= a / b)%Q) by (apply Qle_shift_div_l; lra).
  assert (U : (a / b <= 1)%Q) by (apply Qle_shift_div_r; lra).
  unfold Qdiv in L, U. revert L U. generalize (a * / b)%Q. intros x L U.
  split; lra.
Qed.

End PercentFacts.

Lemma filter_tab {A : Type} (f : A -> bool) (n : nat) (h : nat -> A) :
  length (filter f (tab n h))
  = length (filter (fun c => f (h c)) (seq 0 n)).
Proof.
  unfold tab. induction (seq 0 n) as [|x l IH]; [reflexivity|].
  cbn. destruct (f (h x)); cbn; now rewrite IH.
Qed.

Lemma ncols_table (r c : nat) (cell : nat -> nat -> num) :
  (1 <= r)%nat -> ncols (table r c cell) = c.
Proof.
  intros Hr. destruct r as [|r]; [lia|].
  unfold table. cbn [tab seq map ncols]. apply length_tab.
Qed.

Lemma percent_table (r c : nat) (cell : nat -> nat -> num) :
  (1 <= r)%nat ->
  percent_above_zero (table r c cell)
  = tab r (fun j =>
             (of_Z (Z.of_nat
                      (length (filter (fun k => Num.gtb (cell j k) (of_Z 0))
                                      (seq 0 c))))
              / of_Z (Z.of_nat c) * of_Z 100)%num).
Proof.
  intros Hr. unfold percent_above_zero. rewrite ncols_table by assumption.
  unfold table. rewrite map_tab. apply tab_ext. intros j _.
  now rewrite filter_tab.
Qed.

(** X11.  For a table of at least one column, every value of
    [percent_above_zero] is a finite number between 0 and 100. *)
Theorem X11_percent_between_0_and_100 (nav_df : matrix) (r c : nat) :
  shape nav_df r c -> (1 <= c)%nat ->
  Forall (fun p =>
            exists q, p = Fin q /\ (Q2Qc 0 <= q)%Qc /\ (q <= Q2Qc 100)%Qc)
         (percent_above_zero nav_df).
Proof.
  intros [_ Hs] Hc. unfold percent_above_zero.
  apply Forall_map, Forall_forall. intros x Hx.
  assert (Hn : ncols nav_df = c).
  { destruct nav_df as [|y m]; [destruct Hx|]. now inversion Hs. }
  rewrite Hn. apply percent_bounds; [|assumption].
  rewrite Forall_forall in Hs. rewrite <- (Hs x Hx). apply filter_length_le.
Qed.

Lemma X11_witness :
  Forall (fun p =>
            exists q, p = Fin q /\ (Q2Qc 0 <= q)%Qc /\ (q <= Q2Qc 100)%Qc)
         (percent_above_zero
            [[of_Z 1; of_Z 2; NaN]; [NaN; dec 5 10; of_Z 0]]).
Proof.
  apply (X11_percent_between_0_and_100 _ 2 3); [|lia].
  split; [reflexivity|]. repeat constructor.
Defined.



(** X13.  On the table of a run of [withdrawal_simulation] with
    [n_simulations = 0] every value of [percent_above_zero] is NaN: the
    count 0 is divided by 0 columns. *)
Theorem X13_percent_of_no_column
    (sc rm rs im isd mw : num) (n_years : Z) (g : rng) :
  (0 <= n_years)%Z ->
  exists t,
    returns (withdrawal_simulation sc rm rs im isd mw n_years 0) g t /\
    percent_above_zero t = repeat NaN (12 * Z.to_nat n_years + 1).
Proof.
  intros Hy.
  eexists. split; [apply withdrawal_simulation_returns; lia|].
  rewrite percent_table by lia. rewrite repeat_tab.
  apply tab_ext. intros j _. reflexivity.
Qed.

Lemma X13_witness :
  exists t,
    returns (withdrawal_simulation (of_Z 1000) (of_Z 7) (of_Z 15) (of_Z 3)
               (of_Z 1) (of_Z 40) 1 0) rng_ramp t /\
    percent_above_zero t = repeat NaN (12 * Z.to_nat 1 + 1).
Proof.
  apply (X13_percent_of_no_column (of_Z 1000) (of_Z 7) (of_Z 15) (of_Z 3)
           (of_Z 1) (of_Z 40) 1 rng_ramp); lia.
Defined.

Section AxisFacts.

Local Open Scope Qc_scope.

Lemma linspace_many (a b : Qc) (num d : nat) :
  num = S d -> (1 <= d)%nat ->
  linspace a b num
  = map (fun i => of_nat_q i * ((b - a) / of_nat_q d) + a) (seq 0 d)
    ++ [b].
Proof.
  intros -> Hd. destruct d as [|d]; [lia|].
  unfold linspace. f_equal.
  rewrite (seq_S (S d)), map_app. apply removelast_last.
Qed.

Lemma of_nat_q_add (a b : nat) : of_nat_q (a + b) = of_nat_q a + of_nat_q b.
Proof.
  unfold of_nat_q. apply Qc_is_canon. unfold Qcplus, Q2Qc. cbn [this].
  rewrite !Qred_correct, Nat2Z.inj_add, inject_Z_plus. reflexivity.
Qed.

Lemma of_nat_q_mul (a b : nat) : of_nat_q (a * b) = of_nat_q a * of_nat_q b.
Proof.
  unfold of_nat_q. apply Qc_is_canon. unfold Qcmult, Q2Qc. cbn [this].
  rewrite !Qred_correct, Nat2Z.inj_mul, inject_Z_mult. reflexivity.
Qed.

End AxisFacts.

(** X14.  For a table of [12 * n + 1] rows with [n >= 1], as both simulators
    return, [xlabs] has one label for each row; the label of row 0 is the
    origin, the label of row [i] is the origin plus
    [i * ((12 * n + 1) / 12) / (12 * n)], and the label of the last row is
    the origin plus [n + 1/12]: the axis ends a month after the horizon and
    the labels are more than a month apart. *)
Theorem X14_xlabs_of_a_simulation_table
    (nav_df : matrix) (origin : Qc) (n : nat) :
  (1 <= n)%nat -> length nav_df = (12 * n + 1)%nat ->
  length (xlabs nav_df origin) = (12 * n + 1)%nat /\
  nth 0 (xlabs nav_df origin) (Q2Qc 0) = origin /\
  (forall i, (i < 12 * n)%nat ->
     nth i (xlabs nav_df origin) (Q2Qc 0)
     = (of_nat_q i * (of_nat_q (12 * n + 1) / Q2Qc 12 / of_nat_q (12 * n))
        + origin)%Qc) /\
  nth (12 * n) (xlabs nav_df origin) (Q2Qc 0)
  = (origin + of_nat_q n + Q2Qc (1 # 12))%Qc.
Proof.
  intros Hn Hl. unfold xlabs. rewrite Hl.
  rewrite (linspace_many _ _ _ (12 * n)) by lia.
  rewrite map_app, map_map. cbn [map].
  assert (F : forall i, (i < 12 * n)%nat ->
            nth i (map (fun x => (of_nat_q x
                         * ((of_nat_q (12 * n + 1) / Q2Qc 12 - Q2Qc 0)
                            / of_nat_q (12 * n)) + Q2Qc 0 + origin)%Qc)
                       (seq 0 (12 * n))
                   ++ [(of_nat_q (12 * n + 1) / Q2Qc 12 + origin)%Qc])
                (Q2Qc 0)
            = (of_nat_q i
               * (of_nat_q (12 * n + 1) / Q2Qc 12 / of_nat_q (12 * n))
               + origin)%Qc).
  { intros i Hi. rewrite app_nth1 by (rewrite length_map, length_seq; lia).
    match goal with
    | |- nth _ (map ?f (seq 0 ?k)) _ = _ =>
        change (map f (seq 0 k)) with (tab k f)
    end.
    rewrite nth_tab by lia.
    unfold Qcdiv, Qcminus. ring. }
  split; [|split; [|split]].
  - rewrite length_app, length_map, length_seq. cbn. lia.
  - rewrite F by lia. change (of_nat_q 0) with (Q2Qc 0). ring.
  - exact F.
  - rewrite app_nth2 by (rewrite length_map, length_seq; lia).
    rewrite length_map, length_seq, Nat.sub_diag. cbn [nth].
    rewrite of_nat_q_add, of_nat_q_mul.
    change (of_nat_q 12) with (Q2Qc 12). change (of_nat_q 1) with (Q2Qc 1).
    apply Qc_is_canon. unfold Qcdiv, Qcplus, Qcmult, Qcinv, Q2Qc.
    cbn [this]. rewrite !Qred_correct.
    change (/ 12)%Q with (1 # 12)%Q. ring.
Qed.

Lemma X14_witness :
  nth (12 * 2) (xlabs (repeat [of_Z 1] 25) (Q2Qc 65)) (Q2Qc 0)
  = (Q2Qc 65 + of_nat_q 2 + Q2Qc (1 # 12))%Qc.
Proof.
  apply (X14_xlabs_of_a_simulation_table (repeat [of_Z 1] 25) (Q2Qc 65) 2);
    [lia|reflexivity].
Defined.

(** X15.  On the table of a run of [withdrawal_simulation] with
    [n_years >= 0] the number of years in the title of [withdrawal_plot] is
    [n_years]. *)
Theorem X15_title_years
    (sc rm rs im isd mw : num) (n_years n_simulations : Z) (g : rng) :
  (0 <= n_years)%Z -> (0 <= n_simulations)%Z ->
  exists t,
    returns (withdrawal_simulation sc rm rs im isd mw
               n_years n_simulations) g t /\
    Z.of_nat (title_years t) = n_years.
Proof.
  intros Hy Hs.
  eexists. split; [now apply withdrawal_simulation_returns|].
  unfold title_years, table. rewrite length_skipn, length_tab.
  replace (12 * Z.to_nat n_years + 1 - 1)%nat
    with (Z.to_nat n_years * 12)%nat by lia.
  rewrite Nat.div_mul by lia. lia.
Qed.

Lemma X15_witness :
  exists t,
    returns (withdrawal_simulation (of_Z 1000) (of_Z 7) (of_Z 15) (of_Z 3)
               (of_Z 1) (of_Z 40) 30 1) rng_zero t /\
    Z.of_nat (title_years t) = 30%Z.
Proof.
  apply (X15_title_years (of_Z 1000) (of_Z 7) (of_Z 15) (of_Z 3) (of_Z 1)
           (of_Z 40) 30 1 rng_zero); lia.
Defined.

Lemma ffill_from_table (c : nat) (cell : nat -> nat -> num) (r j : nat) :
  ffill_from (tab c (fun k => last_valid (fun i => cell i k) j))
             (map (fun i => tab c (cell i)) (seq (S j) r))
  = map (fun i => tab c (fun k => last_valid (fun i' => cell i' k) i))
        (seq (S j) r).
Proof.
  revert j. induction r as [|r IH]; intros j; [reflexivity|].
  cbn [seq map ffill_from]. rewrite zip_with_tab.
  assert (E : tab c (fun k =>
                if isnan (cell (S j) k)
                then last_valid (fun i => cell i k) j
                else cell (S j) k)
              = tab c (fun k => last_valid (fun i => cell i k) (S j)))
    by reflexivity.
  rewrite E. f_equal. apply IH.
Qed.

Lemma ffill_table (r c : nat) (cell : nat -> nat -> num) :
  ffill (table r c cell)
  = table r c (fun j k => last_valid (fun i => cell i k) j).
Proof.
  destruct r as [|r]; [reflexivity|].
  unfold table, tab. cbn [seq map ffill]. f_equal.
  apply (ffill_from_table c cell r 0).
Qed.

Lemma last_tab {A : Type} (n : nat) (h : nat -> A) (d : A) :
  last (tab (S n) h) d = h n.
Proof. rewrite tab_S. apply last_last. Qed.

Lemma nav_df_zeros_table (r c : nat) (cell : nat -> nat -> num) :
  nav_df_zeros (table (S r) c cell)
  = Ok (tab c (fun k =>
                 let v := last_valid (fun i => cell i k) r in
                 if isnan v then of_Z 0 else v)).
Proof.
  unfold nav_df_zeros. rewrite ffill_table. unfold fillna, table.
  rewrite map_tab.
  unfold iloc_last.
  destruct (tab (S r) _) as [|x l] eqn:E.
  - apply (f_equal (@length _)) in E. rewrite length_tab in E.
    discriminate E.
  - rewrite <- E, last_tab. now rewrite map_tab.
Qed.

(** X16.  The first statement of [withdrawal_plot] raises [IndexError] on a
    table with no row.  On the table of a run of [withdrawal_simulation] it
    raises nothing and gives, for every column, the last cell of the column
    that is not NaN, or 0 when every cell of the column is NaN. *)
Theorem X16_nav_df_zeros
    (sc rm rs im isd mw : num) (n_years n_simulations : Z) (g : rng) :
  (0 <= n_years)%Z -> (0 <= n_simulations)%Z ->
  let ny := Z.to_nat n_years in
  let ns := Z.to_nat n_simulations in
  nav_df_zeros [] = Raise IndexError /\
  exists t,
    returns (withdrawal_simulation sc rm rs im isd mw
               n_years n_simulations) g t /\
    exists z,
      nav_df_zeros t = Ok z /\ length z = ns /\
      forall c, (c < ns)%nat ->
        nth c z NaN
        = (let v := last_valid (fun j => cell_at t j c) (12 * ny) in
           if isnan v then of_Z 0 else v).
Proof.
  intros Hy Hs ny ns. split; [reflexivity|].
  eexists. split; [now apply withdrawal_simulation_returns|].
  fold ny ns. replace (12 * ny + 1)%nat with (S (12 * ny)) by lia.
  rewrite nav_df_zeros_table. eexists. split; [reflexivity|].
  split; [apply length_tab|].
  intros c Hc. rewrite nth_tab by assumption. cbv zeta.
  assert (E : forall j, (j <= 12 * ny)%nat ->
            last_valid
              (fun i => dec_cell sc rm rs im isd mw ny ns g i c) j
            = last_valid
                (fun i =>
                   cell_at (table (S (12 * ny)) ns
                              (dec_cell sc rm rs im isd mw ny ns g)) i c)
                j).
  { induction j as [|j IH]; intros Hj; cbn [last_valid];
      rewrite ?cell_at_table by (lia || assumption); [reflexivity|].
    now rewrite IH by lia. }
  now rewrite E by lia.
Qed.

Lemma X16_witness :
  exists t,
    returns (withdrawal_simulation (dec 5 100) (of_Z 0) (of_Z 0) (of_Z 0)
               (of_Z 0) (of_Z 0) 1 1) rng_bounce t /\
    exists z, nav_df_zeros t = Ok z /\ length z = Z.to_nat 1.
Proof.
  destruct (X16_nav_df_zeros (dec 5 100) (of_Z 0) (of_Z 0) (of_Z 0) (of_Z 0)
              (of_Z 0) 1 1 rng_bounce) as [_ [t [R [z [E [L _]]]]]];
    try lia.
  exists t. split; [exact R|]. exists z. now split.
Defined.

Section MaskPartition.

Local Open Scope Qc_scope.

Lemma ltb_Fin_true (x y : Qc) : Num.ltb (Fin x) (Fin y) = true -> x < y.
Proof.
  unfold Num.ltb. destruct (x ?= y) eqn:E; try discriminate.
  intros _. now apply Qclt_alt.
Qed.

Lemma ltb_Fin_false (x y : Qc) : Num.ltb (Fin x) (Fin y) = false -> y <= x.
Proof.
  unfold Num.ltb. destruct (x ?= y) eqn:E; try discriminate; intros _.
  - apply Qceq_alt in E. subst. apply Qcle_refl.
  - apply Qcgt_alt in E. now apply Qclt_le_weak.
Qed.

Lemma leb_Fin_true (x y : Qc) : Num.leb (Fin x) (Fin y) = true -> x <= y.
Proof.
  unfold Num.leb. destruct (x ?= y) eqn:E; try discriminate; intros _.
  - apply Qceq_alt in E. subst. apply Qcle_refl.
  - apply Qclt_alt in E. now apply Qclt_le_weak.
Qed.

Lemma leb_Fin_false (x y : Qc) : Num.leb (Fin x) (Fin y) = false -> y < x.
Proof.
  unfold Num.leb. destruct (x ?= y) eqn:E; try discriminate.
  intros _. now apply Qcgt_alt in E.
Qed.

End MaskPartition.

(** X17.  For a finite percentage and a finite threshold, exactly one of the
    three fills of [withdrawal_plot] covers the month: red below
    [threshold - 2.5], yellow from [threshold - 2.5] to [threshold + 2.5],
    green above [threshold + 2.5]; and the month lies on at least one of
    the green, red and khaki lines, a month exactly at the threshold on the
    khaki one only.  A percentage that is NaN is on no line and in no
    fill. *)
Theorem X17_masks (p s : Qc) :
  let pct := Fin p in
  let th := Fin s in
  ((fill_red pct th = true /\ in_band pct th = false
    /\ fill_green pct th = false) \/
   (fill_red pct th = false /\ in_band pct th = true
    /\ fill_green pct th = false) \/
   (fill_red pct th = false /\ in_band pct th = false
    /\ fill_green pct th = true)) /\
  (line_green pct th || line_red pct th || in_band pct th = true) /\
  (p = s ->
   line_green pct th = false /\ line_red pct th = false
   /\ in_band pct th = true) /\
  (line_green NaN th = false /\ line_red NaN th = false
   /\ in_band NaN th = false /\ fill_red NaN th = false
   /\ fill_green NaN th = false).
Proof.
  cbv zeta.
  unfold fill_red, fill_green, in_band, line_green, line_red, Num.gtb, dec,
    Num.sub.
  cbn [Num.add Num.opp].
  destruct (Num.ltb (Fin p) (Fin (s + - Q2Qc (25 # 10))%Qc)) eqn:E1;
    [apply ltb_Fin_true in E1|apply ltb_Fin_false in E1];
  (destruct (Num.ltb (Fin (s + Q2Qc (25 # 10))%Qc) (Fin p)) eqn:E2;
    [apply ltb_Fin_true in E2|apply ltb_Fin_false in E2]);
  (destruct (Num.leb (Fin (s + - Q2Qc (25 # 10))%Qc) (Fin p)) eqn:E3;
    [apply leb_Fin_true in E3|apply leb_Fin_false in E3]);
  (destruct (Num.leb (Fin p) (Fin (s + Q2Qc (25 # 10))%Qc)) eqn:E4;
    [apply leb_Fin_true in E4|apply leb_Fin_false in E4]);
  (destruct (Num.ltb (Fin s) (Fin p)) eqn:E5;
    [apply ltb_Fin_true in E5|apply ltb_Fin_false in E5]);
  (destruct (Num.ltb (Fin p) (Fin s)) eqn:E6;
    [apply ltb_Fin_true in E6|apply ltb_Fin_false in E6]);
  try (exfalso; qc2q; lra);
  (split; [|split; [|split]];
   [ first [ left; repeat split; reflexivity
           | right; left; repeat split; reflexivity
           | right; right; repeat split; reflexivity ]
   | reflexivity
   | intros ->; repeat split; try reflexivity; exfalso; qc2q; lra
   | repeat split; reflexivity ]).
Qed.

(** ** Columns are independent *)

Section OwnDraws.

Variables ny ns c : nat.
Variables g g' : rng.

Hypothesis same_column : forall k, g (k * ns + c)%nat = g' (k * ns + c)%nat.

Lemma advance_same_column (blocks k : nat) :
  advance g (blocks * ns) (k * ns + c)%nat
  = advance g' (blocks * ns) (k * ns + c)%nat.
Proof.
  unfold advance.
  replace (k * ns + c + blocks * ns)%nat with ((k + blocks) * ns + c)%nat
    by nia.
  apply same_column.
Qed.

Lemma acc_cell_own_draws (sc rm rs am asd mc : num) (j : nat) :
  acc_cell sc rm rs am asd mc ny ns g j c
  = acc_cell sc rm rs am asd mc ny ns g' j c.
Proof.
  assert (P : forall y,
            acc_contribution am asd mc ny ns g y c
            = acc_contribution am asd mc ny ns g' y c).
  { induction y as [|y IH]; [reflexivity|].
    cbn [acc_contribution]. rewrite IH. unfold acc_raise, noise_cell.
    now rewrite advance_same_column. }
  induction j as [|j IH]; [reflexivity|].
  cbn [acc_cell]. rewrite IH, P. unfold acc_rate, noise_cell.
  now rewrite same_column.
Qed.

Lemma dec_cell_own_draws (sc rm rs im isd mw : num) (j : nat) :
  dec_cell sc rm rs im isd mw ny ns g j c
  = dec_cell sc rm rs im isd mw ny ns g' j c.
Proof.
  unfold dec_cell. do 2 f_equal.
  induction j as [|j IH]; [reflexivity|].
  cbn [dec_balance]. rewrite IH.
  unfold dec_return, dec_inflation, dec_withdrawal, noise_cell.
  rewrite same_column.
  rewrite (advance_same_column (12 * ny) j).
  assert (E : forall h : rng,
            advance (advance h (12 * ny * ns)) (12 * ny * ns)
                    (j * ns + c)%nat
            = advance h ((12 * ny + 12 * ny) * ns) (j * ns + c)%nat).
  { intros h. unfold advance. f_equal. nia. }
  now rewrite !E, (advance_same_column (12 * ny + 12 * ny) j).
Qed.

End OwnDraws.

(** X18.  A column of either table depends on its own draws only: with
    [n_simulations] columns the draws of column [c] are those numbered
    [k * n_simulations + c], and two generators that agree on them give the
    same column [c], whatever the other draws are. *)
Theorem X18_columns_are_independent
    (sc rm rs x xsd amount : num) (n_years n_simulations : Z)
    (g g' : rng) (c : nat) :
  (0 <= n_years)%Z -> (0 <= n_simulations)%Z ->
  let ny := Z.to_nat n_years in
  let ns := Z.to_nat n_simulations in
  (c < ns)%nat ->
  (forall k, g (k * ns + c)%nat = g' (k * ns + c)%nat) ->
  (exists t t',
     returns (growth_simulation sc rm rs x xsd amount
                n_years n_simulations) g t /\
     returns (growth_simulation sc rm rs x xsd amount
                n_years n_simulations) g' t' /\
     forall j, (j <= 12 * ny)%nat -> cell_at t j c = cell_at t' j c) /\
  (exists t t',
     returns (withdrawal_simulation sc rm rs x xsd amount
                n_years n_simulations) g t /\
     returns (withdrawal_simulation sc rm rs x xsd amount
                n_years n_simulations) g' t' /\
     forall j, (j <= 12 * ny)%nat -> cell_at t j c = cell_at t' j c).
Proof.
  intros Hy Hs ny ns Hc H. split; do 2 eexists.
  - split; [now apply growth_simulation_returns|].
    split; [now apply growth_simulation_returns|].
    intros j Hj. fold ny ns. rewrite !cell_at_table by (lia || assumption).
    now apply acc_cell_own_draws.
  - split; [now apply withdrawal_simulation_returns|].
    split; [now apply withdrawal_simulation_returns|].
    intros j Hj. fold ny ns. rewrite !cell_at_table by (lia || assumption).
    now apply dec_cell_own_draws.
Qed.

Lemma X18_witness :
  exists t t',
    returns (growth_simulation (of_Z 10000) (of_Z 7) (of_Z 15) (of_Z 3)
               (of_Z 1) (of_Z 100) 1 2) rng_zero t /\
    returns (growth_simulation (of_Z 10000) (of_Z 7) (of_Z 15) (of_Z 3)
               (of_Z 1) (of_Z 100) 1 2)
      (fun k => if Nat.even k then Q2Qc 0 else Q2Qc 1) t' /\
    forall j, (j <= 12 * Z.to_nat 1)%nat -> cell_at t j 0 = cell_at t' j 0.
Proof.
  destruct (X18_columns_are_independent (of_Z 10000) (of_Z 7) (of_Z 15)
              (of_Z 3) (of_Z 1) (of_Z 100) 1 2 rng_zero
              (fun k => if Nat.even k then Q2Qc 0 else Q2Qc 1) 0)
    as [H _]; try lia; [|exact H].
  intros k. unfold rng_zero.
  replace (k * Z.to_nat 2 + 0)%nat with (2 * k)%nat by lia.
  now rewrite Nat.even_mul.
Defined.
